(** * Pipeless: a shallow embedding of [pipeline] from [pipeless.py]

    The development follows the closure [pipeline(error_func)] of the source:
    the registration list [functions_list] with [add_func] and
    [function_annotator], the resolver [get_functions_to_run], and the
    generator [run_pipeline] with its inner generator [safe_source].

    Generators are modelled by the sequence of events that a consumer who
    exhausts them observes: every pull from the source, every call of a
    pipeline function, every call of [error_func], every item yielded, and
    whether the generator finished or an exception left it.  A consumer that
    stops early observes a prefix of that sequence. *)

From Stdlib Require Import List String ZArith Bool Lia.
Import ListNotations.

Local Open Scope string_scope.
Local Open Scope Z_scope.
Local Open Scope list_scope.

Set Warnings "-register-all".

Set Implicit Arguments.

(** ** Python data *)

(** Exceptions.  All of them are subclasses of [Exception], so that
    [except Exception] catches them; [StopIteration] is not among them (the
    source raises it only to finish [safe_source], see there). *)
Inductive exn : Type :=
| AssertionError (msg : string)
| TypeError (msg : string)
| UserError (msg : string).

(** Items: immutable Python data.  [VStr] and [VList] are the
    instances of [collections.Iterable]. *)
Inductive value : Type :=
| VNone
| VInt (z : Z)
| VStr (s : string)
| VList (l : list value).

(** The result of a Python call: a returned object or a raised exception. *)
Inductive result (A : Type) : Type :=
| Ok (a : A)
| Raise (e : exn).
Arguments Ok {A} a.
Arguments Raise {A} e.

(** A pipeline function: [item -> None | item | iterable], or raises. *)
Definition transform : Type := value -> result value.

(** What an annotated function builds when called: a callable or anything
    else. *)
Inductive pyobj : Type :=
| Callable (f : transform)
| NotCallable (v : value).

(** An annotated (registered) function object: its [__name__] and its
    zero-argument body. *)
Record func : Type := Func {
  func_name : string;
  func_call : unit -> result pyobj
}.

(** The error handler given to [pipeline]: [error_func(item, exception)]. *)
Definition handler : Type := value -> exn -> result value.

(** An input of [run_pipeline]: the items its iterator produces and, when
    the iterator raises instead of finishing, the exception. *)
Record source : Type := Source {
  items : list value;
  failure : option exn
}.

(** ** Events and runs *)

Inductive event : Type :=
| EvBuild (fn : func)                      (* build_function(fn) : fn() *)
| EvPull (item : value)                    (* the source produced item *)
| EvPullFail (e : exn)                     (* the source raised e *)
| EvCall (function : transform) (item : value)   (* function(item) *)
| EvError (item : value) (e : exn)         (* error_func(item, e) *)
| EvYield (item : value).                  (* yield item *)

(** A run: the events in order, and the exception that left the generator,
    if any. *)
Definition run : Type := (list event * option exn)%type.

Definition trace (r : run) : list event := fst r.
Definition raised (r : run) : option exn := snd r.
Definition completes (r : run) : Prop := raised r = None.

(** Sequencing: the second run happens only if the first raised nothing. *)
Definition seq (r1 r2 : run) : run :=
  match snd r1 with
  | None => (fst r1 ++ fst r2, snd r2)
  | Some e => r1
  end.

Infix ">>" := seq (at level 61, left associativity).

Definition emit (t : list event) : run := (t, None).

(** The items a consumer receives. *)
Fixpoint yields (t : list event) : list value :=
  match t with
  | [] => []
  | EvYield v :: t' => v :: yields t'
  | _ :: t' => yields t'
  end.

Definition outputs (r : run) : list value := yields (trace r).

(** The calls of pipeline functions, in order. *)
Fixpoint calls (t : list event) : list (transform * value) :=
  match t with
  | [] => []
  | EvCall f x :: t' => (f, x) :: calls t'
  | _ :: t' => calls t'
  end.

(** The calls of [error_func], in order. *)
Fixpoint errors (t : list event) : list (value * exn) :=
  match t with
  | [] => []
  | EvError x e :: t' => (x, e) :: errors t'
  | _ :: t' => errors t'
  end.

(** The items pulled from sources, in order. *)
Fixpoint pulls (t : list event) : list value :=
  match t with
  | [] => []
  | EvPull x :: t' => x :: pulls t'
  | _ :: t' => pulls t'
  end.

(** The annotated functions built, in order. *)
Fixpoint builds (t : list event) : list func :=
  match t with
  | [] => []
  | EvBuild fn :: t' => fn :: builds t'
  | _ :: t' => builds t'
  end.

(** ** Value inspection *)

(** [item is None] *)
Definition is_none (item : value) : bool :=
  match item with VNone => true | _ => false end.

(** [isinstance(item, Iterable)] *)
Definition isinstance_Iterable (item : value) : bool :=
  match item with VStr _ | VList _ => true | _ => false end.

(** The characters of a string, each a string of length one. *)
Fixpoint chars (s : string) : list value :=
  match s with
  | EmptyString => []
  | String c s' => VStr (String c EmptyString) :: chars s'
  end.

(** [iter(item)]: the elements of an iterable; iterating anything else
    raises [TypeError] on the first pull. *)
Definition iter (item : value) : source :=
  match item with
  | VList l => Source l None
  | VStr s => Source (chars s) None
  | _ => Source [] (Some (TypeError "object is not iterable"))
  end.

(** ** The registry: [functions_list], [add_func], [function_annotator] *)

(** An entry is the tuple [(group, name, function_builder)]. *)
Definition entry : Type := (string * string * func)%type.

Definition entry_group (en : entry) : string := fst (fst en).
Definition entry_name (en : entry) : string := snd (fst en).
Definition entry_func (en : entry) : func := snd en.

(** [functions_list.append((group, func.__name__, func)); return func] *)
Definition add_func (fn : func) (group : string) (functions_list : list entry)
  : list entry * func :=
  (functions_list ++ [(group, func_name fn, fn)], fn).

(** The argument of [function_annotator]: used bare as a decorator it
    receives the function itself, otherwise a group. *)
Inductive annotator_arg : Type :=
| ArgFunc (fn : func)
| ArgGroup (group : string).

(** Its result: the function, or a decorator still to be applied. *)
Inductive annotator_result : Type :=
| Annotated (fn : func)
| Decorator (decorate : func -> list entry -> list entry * func).

(** [def function_annotator(group='')] *)
Definition function_annotator (group : annotator_arg) (functions_list : list entry)
  : list entry * annotator_result :=
  match group with
  | ArgFunc fn =>                          (* callable(group) *)
      let (fl, f) := add_func fn EmptyString functions_list in (fl, Annotated f)
  | ArgGroup g =>
      (functions_list, Decorator (fun fn => add_func fn g))
  end.

(** The default of the parameter [group]. *)
Definition default_group : annotator_arg := ArgGroup EmptyString.

(** [@function_annotator(group)] above a definition of [fn]. *)
Definition register_in (group : string) (fn : func) (functions_list : list entry)
  : list entry :=
  match function_annotator (ArgGroup group) functions_list with
  | (fl, Decorator decorate) => fst (decorate fn fl)
  | (fl, Annotated _) => fl
  end.

(** [@function_annotator] above a definition of [fn]. *)
Definition register_bare (fn : func) (functions_list : list entry) : list entry :=
  fst (function_annotator (ArgFunc fn) functions_list).

(** Registrations one after the other, each with its group. *)
Definition register_all (regs : list (string * func)) (functions_list : list entry)
  : list entry :=
  fold_left (fun fl gf => register_in (fst gf) (snd gf) fl) regs functions_list.

(** The entry that [add_func] makes of a function and its group. *)
Definition entry_of (gf : string * func) : entry :=
  (fst gf, func_name (snd gf), snd gf).

(** What a client of a pipeline can do with it, and what each operation
    does to [functions_list]: only [add_func] writes it, the resolver and the
    generator read it. *)
Inductive operation : Type :=
| OpAnnotate (fn : func)                           (* @function *)
| OpAnnotateIn (group : string) (fn : func)        (* @function(group) *)
| OpResolve (skip : option (list string))          (* get_functions_to_run *)
| OpRun (src : source) (fns : option (list transform))
        (skip : option (list string)).             (* run_pipeline *)

Definition step (functions_list : list entry) (op : operation) : list entry :=
  match op with
  | OpAnnotate fn => register_bare fn functions_list
  | OpAnnotateIn group fn => register_in group fn functions_list
  | OpResolve _ => functions_list
  | OpRun _ _ _ => functions_list
  end.

(** ** The resolver: [get_functions_to_run] *)

(** [group not in function_groups_to_skip] *)
Definition not_in (group : string) (function_groups_to_skip : list string) : bool :=
  negb (existsb (String.eqb group) function_groups_to_skip).

Definition assert_message : string :=
  "Pipeless annotated functions should build a function".

(** [check_function(build_function(fn))] for one [fn]. *)
Definition check_function (o : pyobj) : result transform :=
  match o with
  | Callable f => Ok f
  | NotCallable _ => Raise (AssertionError assert_message)
  end.

Definition build_function (fn : func) : result pyobj := func_call fn tt.

(** The list comprehension [[check_function(build_function(fn)) for fn in
    functions_to_run]]: left to right, stopping at the first exception. *)
Fixpoint build_all (functions_to_run : list func)
  : list event * result (list transform) :=
  match functions_to_run with
  | [] => ([], Ok [])
  | fn :: more =>
      match build_function fn with
      | Raise e => ([EvBuild fn], Raise e)
      | Ok o =>
          match check_function o with
          | Raise e => ([EvBuild fn], Raise e)
          | Ok f =>
              let (t, r) := build_all more in
              (EvBuild fn :: t,
               match r with Ok fs => Ok (f :: fs) | Raise e => Raise e end)
          end
      end
  end.

(** The entries whose group is not in [skip], in the order of the list. *)
Definition kept (skip : list string) (functions_list : list entry) : list entry :=
  filter (fun en => not_in (entry_group en) skip) functions_list.

(** [[fn for group, _, fn in functions if group not in function_groups_to_skip]] *)
Definition select (functions : list entry) (function_groups_to_skip : list string)
  : list func :=
  map entry_func (kept function_groups_to_skip functions).

(** [if function_groups_to_skip is None: function_groups_to_skip = []] *)
Definition groups_to_skip (function_groups_to_skip : option (list string))
  : list string :=
  match function_groups_to_skip with None => [] | Some l => l end.

(** [def get_functions_to_run(functions=functions_list,
    function_groups_to_skip=None)] *)
Definition get_functions_to_run (functions : list entry)
           (function_groups_to_skip : option (list string))
  : list event * result (list transform) :=
  build_all (select functions (groups_to_skip function_groups_to_skip)).

(** A registered function whose call returns something, and one whose call
    returns something that is not callable. *)
Definition builds_something (fn : func) : Prop :=
  exists o, build_function fn = Ok o.

Definition builds_no_function (fn : func) : Prop :=
  exists v, build_function fn = Ok (NotCallable v).

(** ** The executor: [run_pipeline] *)

Section Executor.

(** The [error_func] the enclosing [pipeline] was created with. *)
Variable error_func : handler.

(** [safe_source]: the items it yields and what it does once the source is
    exhausted or has raised.  Its local variable [item] is [None] before the
    first pull and the item pulled last afterwards: [last (items src) VNone]
    when the pull after the last item raises.  After [error_func] has
    returned, [raise StopIteration] finishes the generator under the
    generator protocol the source was written for; from Python 3.7 on
    (PEP 479) that statement leaves the generator as a [RuntimeError]
    instead.  The events are the same under both; the theorems on failing
    sources state the events, and what an exception of [error_func] does,
    and leave open how the generator terminates once [error_func] has
    returned. *)
Definition safe_source (src : source) : list value * run :=
  (items src,
   match failure src with
   | None => emit []
   | Some e =>
       (* except Exception as e: error_func(item, e); raise StopIteration *)
       ([EvPullFail e; EvError (last (items src) VNone) e],
        match error_func (last (items src) VNone) e with
        | Ok _ => None
        | Raise e' => Some e'
        end)
   end).

(** [try: item = function(item) except Exception as exception:
    item = error_func(item, exception)] *)
Definition call_stage (function : transform) (item : value)
  : list event * result value :=
  match function item with
  | Ok r => ([EvCall function item], Ok r)
  | Raise exception =>
      ([EvCall function item; EvError item exception], error_func item exception)
  end.

(** [for item in ...: body(item)] *)
Definition for_loop (body : value -> run) : list value -> run :=
  fix loop (l : list value) : run :=
    match l with
    | [] => emit []
    | item :: more => emit [EvPull item] >> body item >> loop more
    end.

(** The body of the outer loop for one pulled [item]: the loop over
    [enumerate(functions_to_run)] and the final [if should_yield].  At an
    iterable result the generator recurses on
    [functions_to_run[fn_num+1:]], here the tail of the list. *)
Fixpoint run_item (functions_to_run : list transform) (item : value)
         {struct functions_to_run} : run :=
  match functions_to_run with
  | [] => emit [EvYield item]
  | function :: rest =>
      match call_stage function item with
      | (t, Raise e) => (t, Some e)
      | (t, Ok item) =>
          if is_none item then emit t
          else if isinstance_Iterable item then
            let (its, final) := safe_source (iter item) in
            emit t >> for_loop (run_item rest) its >> final
          else emit t >> run_item rest item
      end
  end.

(** [run_pipeline] with [functions_to_run] given, as in the recursive
    call. *)
Definition run_resolved (functions_to_run : list transform) (src : source) : run :=
  let (its, final) := safe_source src in
  for_loop (run_item functions_to_run) its >> final.

(** [def run_pipeline(item_generator=None, functions_to_run=None,
    function_groups_to_skip=None)] inside a pipeline whose registry is
    [functions_list]. *)
Definition run_pipeline (functions_list : list entry) (item_generator : source)
           (functions_to_run : option (list transform))
           (function_groups_to_skip : option (list string)) : run :=
  match functions_to_run with
  | Some fns => run_resolved fns item_generator
  | None =>
      match get_functions_to_run functions_list function_groups_to_skip with
      | (t, Raise e) => (t, Some e)
      | (t, Ok fns) => emit t >> run_resolved fns item_generator
      end
  end.

End Executor.

(** [default_error_func]: reports the item on standard output (not part of
    the model) and raises the exception again. *)
Definition default_error_func : handler :=
  fun item exception => Raise exception.

(** What may happen while the functions [fns] run: nothing is built, and
    only functions of [fns] are called. *)
Definition executor_event (fns : list transform) (ev : event) : Prop :=
  match ev with
  | EvBuild _ => False
  | EvCall f _ => In f fns
  | _ => True
  end.

(** ** The functions of the docstring and of the scenarios *)

(** [lambda item: item + 1]; adding one to anything but a number raises. *)
Definition up_one : transform :=
  fun item =>
    match item with
    | VInt z => Ok (VInt (z + 1))
    | _ => Raise (TypeError "unsupported operand type(s) for +")
    end.

(** [lambda item: [item, item]] *)
Definition twofer : transform := fun item => Ok (VList [item; item]).

(** A function that raises on every item. *)
Definition always_raises : transform := fun _ => Raise (UserError "boom").

(** [def up_one(): return lambda item: item+1] and the like. *)
Definition builder (name : string) (f : transform) : func :=
  Func name (fun _ => Ok (Callable f)).

(** [lambda item, e: None], the handler of the docstring. *)
Definition ignore_errors : handler := fun _ _ => Ok VNone.

(** A handler that substitutes a fixed value. *)
Definition substitute (v : value) : handler := fun _ _ => Ok v.

Definition ints (l : list Z) : list value := map VInt l.

(** [lambda item: [item, 10 * item]] on numbers, [None] otherwise. *)
Definition explode : transform :=
  fun item => match item with
              | VInt z => Ok (VList [VInt z; VInt (10 * z)])
              | _ => Ok VNone
              end.

(** [lambda item: [item, -item] if item > 0 else None] *)
Definition mirror (item : value) : value :=
  match item with
  | VInt z => if 0 <? z then VList [VInt z; VInt (- z)] else VNone
  | _ => VNone
  end.

(** [lambda item: item * 2] on numbers, the item itself otherwise. *)
Definition double (item : value) : value :=
  match item with
  | VInt z => VInt (2 * z)
  | _ => item
  end.

(** [lambda item: None if item == 2 else item] *)
Definition drop_two : transform :=
  fun item => match item with
              | VInt 2 => Ok VNone
              | _ => Ok item
              end.

(** [lambda item: 10 // item], which raises at zero. *)
Definition ten_by : transform :=
  fun item => match item with
              | VInt 0 => Raise (UserError "division by zero")
              | VInt z => Ok (VInt (10 / z))
              | _ => Raise (TypeError "unsupported operand type(s) for //")
              end.

(** [lambda item: "ab"] *)
Definition to_text : transform := fun _ => Ok (VStr "ab").

(** A handler that substitutes the item it was given. *)
Definition give_back : handler := fun item _ => Ok item.

(** [def broken(): return 7] *)
Definition broken : func := Func "broken" (fun _ => Ok (NotCallable (VInt 7))).

(** The docstring's registry with [twofer] put in a group of its own. *)
Definition grouped_registry : list entry :=
  register_in "fan" (builder "twofer" twofer)
    (register_bare (builder "up_one" up_one) []).

(** The outcome of one stage, as the dispatch after the [try] sees it. *)
Inductive stage_output : Type :=
| Drop
| Single (item : value)
| Many (elements : list value).

(** [if item is None: ... if isinstance(item, Iterable): ...] *)
Definition classify (item : value) : stage_output :=
  if is_none item then Drop
  else if isinstance_Iterable item then Many (items (iter item))
  else Single item.

Section Advance.

Variable error_func : handler.

(** The stages of [pre] applied to [item] one after the other, as long as
    each of them (or [error_func] after it raised) gives a value that is
    neither [None] nor iterable: the events and the item that reaches the
    stage after [pre]. *)
Fixpoint advance (pre : list transform) (item : value)
  : option (list event * value) :=
  match pre with
  | [] => Some ([], item)
  | function :: rest =>
      match call_stage error_func function item with
      | (t, Ok item') =>
          match classify item' with
          | Single _ =>
              match advance rest item' with
              | Some (t', final) => Some (t ++ t', final)
              | None => None
              end
          | _ => None
          end
      | (_, Raise _) => None
      end
  end.

End Advance.

(** A reference semantics for error-free chains, after the description of the
    executor: the functions are applied in order, a dropped item gives
    nothing, and the elements of a fan-out go through the remaining functions
    one after the other, depth first. *)
Fixpoint apply_chain (chain : list (value -> value)) (item : value) : list value :=
  match chain with
  | [] => [item]
  | g :: rest =>
      match classify (g item) with
      | Drop => []
      | Single item' => apply_chain rest item'
      | Many elements => flat_map (apply_chain rest) elements
      end
  end.

(** A function that never raises. *)
Definition pure (g : value -> value) : transform := fun item => Ok (g item).

(** ** Chains without fan-out *)

(** A function that never returns an iterable, and a handler that never
    does. *)
Definition never_iterable (function : transform) : Prop :=
  forall item r, function item = Ok r -> isinstance_Iterable r = false.

Definition handler_never_iterable (error_func : handler) : Prop :=
  forall item e r, error_func item e = Ok r -> isinstance_Iterable r = false.

(** ** [namedtuple_optional] *)

(** A Python dict with string keys: its items in iteration order (for
    keyword arguments the order of the call from Python 3.6 on, an order
    that the interpreter chooses before). *)
Definition dict : Type := list (string * value).

(** [d.keys()] *)
Definition dict_keys (d : dict) : list string := map fst d.

(** [d.get(key)] *)
Fixpoint dict_get (d : dict) (key : string) : option value :=
  match d with
  | [] => None
  | (k, v) :: rest => if String.eqb k key then Some v else dict_get rest key
  end.

(** [key in d] *)
Definition dict_has (d : dict) (key : string) : bool :=
  match dict_get d key with Some _ => true | None => false end.

(** [d[key] = v]: a key already there keeps its place. *)
Fixpoint dict_set (d : dict) (key : string) (v : value) : dict :=
  match d with
  | [] => [(key, v)]
  | (k, w) :: rest =>
      if String.eqb k key then (k, v) :: rest else (k, w) :: dict_set rest key v
  end.

(** [d.update(other)] *)
Definition dict_update (d other : dict) : dict :=
  fold_left (fun acc kv => dict_set acc (fst kv) (snd kv)) other d.

(** An instance of a class made by [collections.namedtuple]: the name of the
    class, its field names and the values at their positions. *)
Record namedtuple : Type := Namedtuple {
  nt_name : string;
  nt_fields : list string;
  nt_values : list value
}.

(** What a call of [generated_class] with keyword arguments gives: an
    instance; the [KeyError] of its own check; the [TypeError] of the call
    itself when an argument is named [cls], the name of the first parameter
    of [__new__(cls, **args)], so that [cls] would be given twice; or the
    [TypeError] of the named tuple's constructor for a missing or an
    unexpected field. *)
Inductive construction : Type :=
| Built (t : namedtuple)
| KeyError (arg : string)
| BindError
| FieldError.

(** The constructor that [namedtuple(name, field_names)] generates, called
    with keyword arguments only: every field must be given and nothing
    else. *)
Definition namedtuple_new (name : string) (field_names : list string)
           (fields : dict) : construction :=
  if forallb (dict_has fields) field_names
     && forallb (fun k => existsb (String.eqb k) field_names) (dict_keys fields)
  then Built (Namedtuple name field_names
                (map (fun k => match dict_get fields k with
                               | Some v => v
                               | None => VNone
                               end) field_names))
  else FieldError.

(** A call of [generated_class] with the keyword arguments [args]: their
    binding to [__new__(cls, **args)], then its body. *)
Definition generated_class (schema : dict) (name : string) (args : dict)
  : construction :=
  if dict_has args "cls" then BindError
  else
    (* for arg in args: if arg not in schema: raise KeyError(arg) *)
    match find (fun kv => negb (dict_has schema (fst kv))) args with
    | Some (arg, _) => KeyError arg
    | None =>
        (* fields = schema.copy(); fields.update(args) *)
        let fields := dict_update schema args in
        namedtuple_new name (dict_keys schema) fields
    end.

(** [name.startswith('_')] *)
Definition starts_with_underscore (name : string) : bool :=
  match name with
  | String c _ => String.eqb (String c EmptyString) "_"
  | EmptyString => false
  end.

(** No name occurs twice. *)
Fixpoint distinct (names : list string) : bool :=
  match names with
  | [] => true
  | n :: rest => negb (existsb (String.eqb n) rest) && distinct rest
  end.

(** What [namedtuple(name, field_names)] asks of its arguments, or else
    raises [ValueError]: the type name and the field names are names
    ([is_name]: identifiers that are no keywords, which depends on the
    version of Python), and no field name starts with an underscore or occurs
    twice. *)
Definition namedtuple_accepts (is_name : string -> bool) (name : string)
           (field_names : list string) : bool :=
  forallb is_name (name :: field_names)
  && forallb (fun n => negb (starts_with_underscore n)) field_names
  && distinct field_names.

(** [def namedtuple_optional(schema, name)]: the class, when
    [namedtuple(name, schema.keys())] in its bases accepts the names, and
    [None] for the [ValueError] otherwise. *)
Definition namedtuple_optional (is_name : string -> bool) (schema : dict)
           (name : string) : option (dict -> construction) :=
  if namedtuple_accepts is_name name (dict_keys schema)
  then Some (generated_class schema name)
  else None.

(** The value of a field: [t.key] for a field name [key], [None] for a name
    that is no field of [t] (the other attributes of an instance are not
    modelled). *)
Fixpoint field_at (names : list string) (values : list value) (key : string)
  : option value :=
  match names, values with
  | n :: names', v :: values' =>
      if String.eqb n key then Some v else field_at names' values' key
  | _, _ => None
  end.

Definition field_value (t : namedtuple) (key : string) : option value :=
  field_at (nt_fields t) (nt_values t) key.

(** The last value given for [key] among keyword arguments. *)
Definition last_given (args : dict) (key : string) : option value :=
  dict_get (rev args) key.

(** The schema of the docstring: [{'key': 0, 'key2': ''}]. *)
Definition optional_schema : dict :=
  [("key", VInt 0); ("key2", VStr EmptyString)].

(** ** [commandline] *)

Section Commandline.

(** What the commands return. *)
Variable R : Type.

(** A command: a function object with its [__name__], called with the
    remaining command-line arguments. *)
Record command : Type := Command {
  command_name : string;
  command_call : list string -> result R
}.

(** What [call] does: lines written to standard output and calls of
    commands. *)
Inductive action : Type :=
| Print (line : string)
| Invoke (func : command) (args : list string).

(** Python's [str.strip], and the order in which [set(commands)] is
    iterated. *)
Variable strip : string -> string.
Variable set_iteration : list (string * command) -> list (string * command).

(** [get_command_names = lambda: ", ".join([name for name, _ in
    set(commands)])] *)
Definition get_command_names (commands : list (string * command)) : string :=
  String.concat ", " (map fst (set_iteration commands)).

(** [def command_annotator(func, name=None)] *)
Definition command_annotator (func : command) (name : option string)
           (commands : list (string * command))
  : list (string * command) * command :=
  let name := match name with None => command_name func | Some n => n end in
  (commands ++ [(name, func)], func).

(** [dict(commands)[command]]: of two pairs with the same name the later
    one counts. *)
Fixpoint commands_dict (commands : list (string * command)) (key : string)
  : option command :=
  match commands with
  | [] => None
  | (name, func) :: rest =>
      match commands_dict rest key with
      | Some later => Some later
      | None => if String.eqb name key then Some func else None
      end
  end.

(** The truth value of [command_line_help]. *)
Definition truthy (command_line_help : option string) : bool :=
  match command_line_help with
  | None => false
  | Some EmptyString => false
  | Some _ => true
  end.

Definition help_text (command_line_help : option string) : string :=
  match command_line_help with None => EmptyString | Some h => h end.

(** [def call(_=None, command=None, *args)]: the actions, and the exception
    a called command raised.  What the command returns is dropped. *)
Definition call (commands : list (string * command))
           (command_line_help : option string)
           (command : option string) (args : list string)
  : list action * option exn :=
  let printed_help :=
    match command with
    | None => if truthy command_line_help
              then [Print (strip (help_text command_line_help))] else []
    | Some _ => []
    end in
  let options := Print ("Command options: " ++ get_command_names commands)%string in
  match command with
  | None => (printed_help ++ [options], None)
  | Some c =>
      match commands_dict commands c with
      | None => (printed_help ++ [options], None)
      | Some func =>
          (printed_help ++ [Invoke func args],
           match command_call func args with
           | Ok _ => None
           | Raise e => Some e
           end)
      end
  end.

(** [def cli()]: [call] applied to the elements of [sys.argv]. *)
Definition cli (commands : list (string * command))
           (command_line_help : option string) (argv : list string)
  : list action * option exn :=
  match argv with
  | [] => call commands command_line_help None []
  | [_] => call commands command_line_help None []
  | _ :: command :: args => call commands command_line_help (Some command) args
  end.

(** The items a pipeline can be run on. *)
Variable S : Type.

(** [lambda: pipeline_run_function(item_source)]: it takes no argument. *)
Definition run_lambda (pipeline_run_function : S -> R) (item_source : S) : command :=
  Command "<lambda>"
    (fun args =>
       match args with
       | [] => Ok (pipeline_run_function item_source)
       | _ => Raise (TypeError "<lambda>() takes no arguments")
       end).

(** [def commandline_pipeline_connector(command_annotator,
    pipeline_run_function, item_source)] *)
Definition commandline_pipeline_connector (pipeline_run_function : S -> R)
           (item_source : S) (commands : list (string * command))
  : list (string * command) :=
  fst (command_annotator (run_lambda pipeline_run_function item_source)
         (Some "run") commands).

End Commandline.

(** ** Runs and their sequencing *)

Lemma seq_emit (t : list event) (r : run) :
  emit t >> r = (t ++ trace r, raised r).
Proof. reflexivity. Qed.

Lemma seq_nil_l (r : run) : emit [] >> r = r.
Proof. destruct r; reflexivity. Qed.

Lemma seq_nil_r (r : run) : r >> emit [] = r.
Proof.
  destruct r as [t [e|]]; unfold seq, emit; simpl; [reflexivity|].
  now rewrite app_nil_r.
Qed.

Lemma seq_assoc (a b c : run) : (a >> b) >> c = a >> (b >> c).
Proof.
  destruct a as [ta [ea|]], b as [tb [eb|]], c as [tc ec];
    unfold seq; simpl; try reflexivity.
  now rewrite app_assoc.
Qed.

Lemma seq_completes (a b : run) :
  completes (a >> b) <-> completes a /\ completes b.
Proof.
  destruct a as [ta [ea|]], b as [tb eb]; unfold completes, raised, seq; simpl;
    intuition congruence.
Qed.

Lemma trace_seq (a b : run) :
  completes a -> trace (a >> b) = trace a ++ trace b.
Proof.
  destruct a as [ta ea], b as [tb eb]; unfold completes, raised, seq; simpl.
  now intros ->.
Qed.

Lemma raised_seq (a b : run) :
  completes a -> raised (a >> b) = raised b.
Proof.
  destruct a as [ta ea], b as [tb eb]; unfold completes, raised, seq; simpl.
  now intros ->.
Qed.

Lemma yields_app (t1 t2 : list event) : yields (t1 ++ t2) = yields t1 ++ yields t2.
Proof.
  induction t1 as [|ev t1 IH]; simpl; [reflexivity|].
  destruct ev; simpl; now rewrite IH.
Qed.

Lemma calls_app (t1 t2 : list event) : calls (t1 ++ t2) = calls t1 ++ calls t2.
Proof.
  induction t1 as [|ev t1 IH]; simpl; [reflexivity|].
  destruct ev; simpl; now rewrite IH.
Qed.

Lemma errors_app (t1 t2 : list event) :
  errors (t1 ++ t2) = errors t1 ++ errors t2.
Proof.
  induction t1 as [|ev t1 IH]; simpl; [reflexivity|].
  destruct ev; simpl; now rewrite IH.
Qed.

Lemma pulls_app (t1 t2 : list event) : pulls (t1 ++ t2) = pulls t1 ++ pulls t2.
Proof.
  induction t1 as [|ev t1 IH]; simpl; [reflexivity|].
  destruct ev; simpl; now rewrite IH.
Qed.

Lemma builds_app (t1 t2 : list event) : builds (t1 ++ t2) = builds t1 ++ builds t2.
Proof.
  induction t1 as [|ev t1 IH]; simpl; [reflexivity|].
  destruct ev; simpl; now rewrite IH.
Qed.

Lemma outputs_seq (a b : run) :
  completes a -> outputs (a >> b) = outputs a ++ outputs b.
Proof.
  intros H. unfold outputs. now rewrite trace_seq, yields_app.
Qed.

(** ** The loop over the source *)

Section Loop.

Variable body : value -> run.

Lemma for_loop_cons (item : value) (more : list value) :
  for_loop body (item :: more)
  = emit [EvPull item] >> body item >> for_loop body more.
Proof. reflexivity. Qed.

Lemma for_loop_app (l1 l2 : list value) :
  for_loop body (l1 ++ l2) = for_loop body l1 >> for_loop body l2.
Proof.
  induction l1 as [|x l1 IH].
  - simpl. now rewrite seq_nil_l.
  - rewrite <- app_comm_cons, !for_loop_cons, IH. now rewrite !seq_assoc.
Qed.

Lemma for_loop_completes (l : list value) :
  completes (for_loop body l) <-> Forall (fun x => completes (body x)) l.
Proof.
  induction l as [|x l IH].
  - simpl. split; [constructor | reflexivity].
  - rewrite for_loop_cons, !seq_completes, IH. split.
    + intros [[_ Hx] Hl]. now constructor.
    + intros H. inversion H; subst. repeat split; assumption.
Qed.

(** When every body finishes, what the loop yields is what the bodies
    yield, item after item. *)
Lemma for_loop_outputs (l : list value) :
  completes (for_loop body l) ->
  outputs (for_loop body l) = flat_map (fun x => outputs (body x)) l.
Proof.
  induction l as [|x l IH]; [reflexivity|].
  rewrite for_loop_cons. intros H.
  apply seq_completes in H as [H Hl]. pose proof H as Hx.
  apply seq_completes in Hx as [_ Hx].
  rewrite outputs_seq by assumption. rewrite outputs_seq by reflexivity.
  simpl. now rewrite IH.
Qed.

End Loop.

(** ** The executor, equation by equation *)

Section ExecutorFacts.

Variable error_func : handler.

Lemma run_resolved_unfold (fns : list transform) (src : source) :
  run_resolved error_func fns src
  = for_loop (run_item error_func fns) (items src)
    >> snd (safe_source error_func src).
Proof. reflexivity. Qed.

Lemma run_resolved_finite (fns : list transform) (l : list value) :
  run_resolved error_func fns (Source l None) = for_loop (run_item error_func fns) l.
Proof. rewrite run_resolved_unfold. simpl. apply seq_nil_r. Qed.

Lemma iter_iterable (item : value) :
  isinstance_Iterable item = true -> failure (iter item) = None.
Proof. destruct item; simpl; congruence. Qed.

Lemma run_resolved_iter (fns : list transform) (item : value) :
  isinstance_Iterable item = true ->
  run_resolved error_func fns (iter item)
  = for_loop (run_item error_func fns) (items (iter item)).
Proof.
  intros H. rewrite run_resolved_unfold. unfold safe_source.
  rewrite (iter_iterable _ H). simpl. apply seq_nil_r.
Qed.

(** The recursive call [run_pipeline(item, functions_to_run[fn_num+1:],
    function_groups_to_skip)] does not resolve again. *)
Lemma run_pipeline_given (functions_list : list entry) (src : source)
      (fns : list transform) (skip : option (list string)) :
  run_pipeline error_func functions_list src (Some fns) skip
  = run_resolved error_func fns src.
Proof. reflexivity. Qed.

Lemma run_item_nil (item : value) :
  run_item error_func [] item = emit [EvYield item].
Proof. reflexivity. Qed.

(** One turn of the loop over [enumerate(functions_to_run)]. *)
Lemma run_item_cons (function : transform) (rest : list transform) (item : value) :
  run_item error_func (function :: rest) item
  = match call_stage error_func function item with
    | (t, Raise e) => (t, Some e)
    | (t, Ok item') =>
        match classify item' with
        | Drop => emit t
        | Many _ => emit t >> run_resolved error_func rest (iter item')
        | Single _ => emit t >> run_item error_func rest item'
        end
    end.
Proof.
  cbn [run_item].
  destruct (call_stage error_func function item) as [t [item'|e]];
    [|reflexivity].
  unfold classify. destruct (is_none item'); [reflexivity|].
  destruct (isinstance_Iterable item'); [|reflexivity].
  unfold run_resolved.
  destruct (safe_source error_func (iter item')) as [its final].
  now rewrite seq_assoc.
Qed.

Lemma classify_many (item : value) (elements : list value) :
  classify item = Many elements ->
  isinstance_Iterable item = true /\ elements = items (iter item).
Proof.
  unfold classify. destruct (is_none item); [discriminate|].
  destruct (isinstance_Iterable item); [|discriminate].
  intros H. injection H as <-. split; reflexivity.
Qed.

Lemma classify_single (item item' : value) :
  classify item = Single item' ->
  item' = item /\ is_none item = false /\ isinstance_Iterable item = false.
Proof.
  unfold classify. destruct (is_none item); [discriminate|].
  destruct (isinstance_Iterable item); [discriminate|].
  intros H. injection H as <-. repeat split.
Qed.

(** The stages an item passes one by one are a prefix of its run. *)
Lemma run_item_advance (pre post : list transform) (item current : value)
      (t : list event) :
  advance error_func pre item = Some (t, current) ->
  run_item error_func (pre ++ post) item
  = emit t >> run_item error_func post current.
Proof.
  revert item t. induction pre as [|function pre IH]; intros item t H.
  - simpl in H. injection H as <- <-. simpl app. now rewrite seq_nil_l.
  - simpl in H. rewrite <- app_comm_cons, run_item_cons.
    destruct (call_stage error_func function item) as [t0 [item'|e]];
      [|discriminate].
    destruct (classify item') eqn:Hc; try discriminate.
    destruct (advance error_func pre item') as [[t' final]|] eqn:Ha;
      [|discriminate].
    injection H as <- <-. rewrite (IH _ _ Ha).
    rewrite <- seq_assoc. reflexivity.
Qed.

(** What a run yields does not depend on how its source ends. *)
Lemma outputs_run_resolved (fns : list transform) (src : source) :
  outputs (run_resolved error_func fns src)
  = outputs (for_loop (run_item error_func fns) (items src)).
Proof.
  rewrite run_resolved_unfold. unfold safe_source. simpl.
  destruct (for_loop (run_item error_func fns) (items src)) as [t [e|]] eqn:Hl;
    [reflexivity|].
  destruct (failure src) as [e|].
  - unfold seq, outputs, trace. simpl. rewrite yields_app. simpl.
    now rewrite app_nil_r.
  - now rewrite seq_nil_r.
Qed.

(** A source cut in two: what is yielded for the first part comes first. *)
Lemma outputs_run_resolved_app (fns : list transform) (l1 l2 : list value)
      (fail : option exn) :
  completes (run_resolved error_func fns (Source l1 None)) ->
  outputs (run_resolved error_func fns (Source (l1 ++ l2) fail))
  = outputs (run_resolved error_func fns (Source l1 None))
    ++ outputs (run_resolved error_func fns (Source l2 fail)).
Proof.
  rewrite run_resolved_finite. intros H.
  rewrite (outputs_run_resolved fns (Source (l1 ++ l2) fail)).
  rewrite (outputs_run_resolved fns (Source l2 fail)). simpl items.
  rewrite for_loop_app. now apply outputs_seq.
Qed.

Lemma outputs_run_resolved_one (fns : list transform) (item : value) :
  outputs (run_resolved error_func fns (Source [item] None))
  = outputs (run_item error_func fns item).
Proof.
  rewrite run_resolved_finite, for_loop_cons. simpl for_loop.
  rewrite seq_nil_r, seq_emit. reflexivity.
Qed.

Lemma completes_run_resolved_one (fns : list transform) (item : value) :
  completes (run_resolved error_func fns (Source [item] None))
  <-> completes (run_item error_func fns item).
Proof.
  rewrite run_resolved_finite, for_loop_completes. split.
  - intros H. now inversion H.
  - intros H. now repeat constructor.
Qed.

End ExecutorFacts.

(** ** Stages passed one by one *)

Section AdvanceFacts.

Variable error_func : handler.

Lemma emit_seq_emit (t1 t2 : list event) : emit t1 >> emit t2 = emit (t1 ++ t2).
Proof. reflexivity. Qed.

Lemma call_stage_yields (function : transform) (item : value) :
  yields (fst (call_stage error_func function item)) = [].
Proof. unfold call_stage. destruct (function item); reflexivity. Qed.

Lemma call_stage_calls (function : transform) (item : value) :
  calls (fst (call_stage error_func function item)) = [(function, item)].
Proof. unfold call_stage. destruct (function item); reflexivity. Qed.

Lemma advance_yields (pre : list transform) (item current : value)
      (t : list event) :
  advance error_func pre item = Some (t, current) -> yields t = [].
Proof.
  revert item t. induction pre as [|function pre IH]; intros item t H; simpl in H.
  - now injection H as <- <-.
  - pose proof (call_stage_yields function item) as Hy.
    destruct (call_stage error_func function item) as [t0 [item'|e]];
      [|discriminate].
    destruct (classify item'); try discriminate.
    destruct (advance error_func pre item') as [[t' final]|] eqn:Ha;
      [|discriminate].
    injection H as <- <-. rewrite yields_app. simpl in Hy. rewrite Hy.
    now apply IH with (item := item').
Qed.

(** The functions called while an item advances are those of [pre], once
    each and in order. *)
Lemma advance_calls (pre : list transform) (item current : value)
      (t : list event) :
  advance error_func pre item = Some (t, current) -> map fst (calls t) = pre.
Proof.
  revert item t. induction pre as [|function pre IH]; intros item t H; simpl in H.
  - now injection H as <- <-.
  - pose proof (call_stage_calls function item) as Hc.
    destruct (call_stage error_func function item) as [t0 [item'|e]];
      [|discriminate].
    destruct (classify item'); try discriminate.
    destruct (advance error_func pre item') as [[t' final]|] eqn:Ha;
      [|discriminate].
    injection H as <- <-. rewrite calls_app, map_app. simpl in Hc. rewrite Hc.
    simpl. f_equal. now apply IH with (item := item').
Qed.

(** An item whose stage after [pre] ends in [None], returned by the
    function or by [error_func]: the run of the item ends there, whatever
    functions follow. *)
Lemma run_item_stops (pre post : list transform) (function : transform)
      (item current : value) (t t0 : list event) :
  advance error_func pre item = Some (t, current) ->
  call_stage error_func function current = (t0, Ok VNone) ->
  run_item error_func (pre ++ function :: post) item = emit (t ++ t0).
Proof.
  intros Ha Hs. rewrite (run_item_advance _ _ (function :: post) _ Ha).
  rewrite run_item_cons, Hs. reflexivity.
Qed.

(** An item whose stage after [pre] gives a value that is neither [None]
    nor iterable goes on to the next function with that value. *)
Lemma run_item_continues (pre post : list transform) (function : transform)
      (item current next : value) (t t0 : list event) :
  advance error_func pre item = Some (t, current) ->
  call_stage error_func function current = (t0, Ok next) ->
  classify next = Single next ->
  run_item error_func (pre ++ function :: post) item
  = emit (t ++ t0) >> run_item error_func post next.
Proof.
  intros Ha Hs Hc. rewrite (run_item_advance _ _ (function :: post) _ Ha).
  rewrite run_item_cons, Hs, Hc.
  now rewrite <- seq_assoc, emit_seq_emit.
Qed.

(** An item whose run yields nothing and raises nothing leaves no mark on
    what the run over the whole source yields. *)
Lemma outputs_without_item (chain : list transform) (item : value)
      (t : list event) (before after : list value) (fail : option exn) :
  run_item error_func chain item = emit t ->
  yields t = [] ->
  completes (run_resolved error_func chain (Source before None)) ->
  outputs (run_resolved error_func chain (Source (before ++ item :: after) fail))
  = outputs (run_resolved error_func chain (Source before None))
    ++ outputs (run_resolved error_func chain (Source after fail)).
Proof.
  intros Hrun Hy Hbefore.
  rewrite outputs_run_resolved_app by assumption. f_equal.
  change (item :: after) with ([item] ++ after).
  assert (Hone : completes (run_resolved error_func chain (Source [item] None))).
  { apply completes_run_resolved_one. now rewrite Hrun. }
  rewrite outputs_run_resolved_app by assumption.
  rewrite outputs_run_resolved_one, Hrun. unfold outputs at 1, emit, trace.
  simpl fst. now rewrite Hy.
Qed.

End AdvanceFacts.

(** ** Fan-out *)

(** C1.  When the function at position [length pre] of the chain returns an
    iterable with elements [elements] for the item that reaches it, the run of
    that item continues as the recursive call of [run_pipeline] on the
    iterable with the functions after that position; when no exception
    leaves the run, what is yielded for the item is what the remaining
    functions yield for each element, in order, between what is yielded for
    the source items before it and for those after it.  With [up_one] then
    [twofer] the source [0, 1, 3] gives [1, 1, 2, 2, 4, 4]. *)
Theorem fan_out_contiguous :
  (forall (error_func : handler) (functions_list : list entry)
          (skip : option (list string))
          (pre post : list transform) (function : transform)
          (item current result : value) (t : list event)
          (elements before after : list value) (fail : option exn),
      advance error_func pre item = Some (t, current) ->
      function current = Ok result ->
      classify result = Many elements ->
      let chain := pre ++ function :: post in
      run_item error_func chain item
      = emit (t ++ [EvCall function current])
        >> run_pipeline error_func functions_list (iter result) (Some post) skip
      /\ (completes (run_resolved error_func chain (Source (before ++ [item]) None)) ->
          outputs (run_resolved error_func chain (Source (before ++ item :: after) fail))
          = outputs (run_resolved error_func chain (Source before None))
            ++ flat_map (fun element => outputs (run_item error_func post element))
                        elements
            ++ outputs (run_resolved error_func chain (Source after fail))))
  /\ (forall error_func : handler,
         outputs (run_pipeline error_func
                    (register_bare (builder "twofer" twofer)
                       (register_bare (builder "up_one" up_one) []))
                    (Source (ints [0; 1; 3]) None) None None)
         = ints [1; 1; 2; 2; 4; 4]).
Proof.
  split; [|reflexivity].
  intros error_func functions_list skip pre post function item current result t
         elements before after fail Ha Hf Hc chain.
  assert (Hrun : run_item error_func chain item
                 = emit (t ++ [EvCall function current])
                   >> for_loop (run_item error_func post) elements).
  { unfold chain. rewrite (run_item_advance _ _ (function :: post) _ Ha).
    rewrite run_item_cons. unfold call_stage. rewrite Hf, Hc.
    apply classify_many in Hc as [Hit ->].
    rewrite run_resolved_iter by assumption.
    now rewrite <- seq_assoc, emit_seq_emit. }
  split.
  - rewrite Hrun, run_pipeline_given.
    apply classify_many in Hc as [Hit ->].
    now rewrite run_resolved_iter.
  - intros Hdone. rewrite run_resolved_finite, for_loop_app in Hdone.
    apply seq_completes in Hdone as [Hbefore Hitem].
    apply for_loop_completes in Hitem.
    apply Forall_inv in Hitem.
    pose proof (proj2 (completes_run_resolved_one error_func chain item) Hitem)
      as Hone.
    rewrite outputs_run_resolved_app
      by (now rewrite run_resolved_finite).
    f_equal.
    change (item :: after) with ([item] ++ after).
    rewrite outputs_run_resolved_app by exact Hone. f_equal.
    rewrite outputs_run_resolved_one, Hrun.
    rewrite Hrun in Hitem. apply seq_completes in Hitem as [_ Hloop].
    rewrite outputs_seq by reflexivity.
    rewrite for_loop_outputs by assumption.
    unfold outputs at 1, emit, trace. simpl fst.
    rewrite yields_app, (advance_yields _ _ _ Ha). reflexivity.
Qed.

Lemma fan_out_contiguous_witness :
  outputs (run_resolved default_error_func [pure (fun v => v); explode; up_one]
             (Source (ints [1; 2; 3]) None))
  = outputs (run_resolved default_error_func [pure (fun v => v); explode; up_one]
               (Source (ints [1]) None))
    ++ flat_map (fun element => outputs (run_item default_error_func [up_one] element))
                (ints [2; 20])
    ++ outputs (run_resolved default_error_func [pure (fun v => v); explode; up_one]
                  (Source (ints [3]) None)).
Proof.
  refine (proj2 (proj1 fan_out_contiguous default_error_func [] None
                   [pure (fun v => v)] [up_one] explode (VInt 2) (VInt 2)
                   (VList (ints [2; 20]))
                   [EvCall (pure (fun v => v)) (VInt 2)]
                   (ints [2; 20]) (ints [1]) (ints [3]) None _ _ _) _);
    reflexivity.
Defined.

(** ** The resolver *)

Lemma select_nil (functions : list entry) :
  select functions [] = map entry_func functions.
Proof.
  unfold select. f_equal. induction functions as [|en l IH]; [reflexivity|].
  simpl. now rewrite IH.
Qed.

Lemma select_app (l1 l2 : list entry) (skip : list string) :
  select (l1 ++ l2) skip = select l1 skip ++ select l2 skip.
Proof. unfold select, kept. now rewrite filter_app, map_app. Qed.

(** Building succeeds when every function builds a callable, and then every
    function has been built once, in order. *)
Lemma build_all_callable (fns : list func) (fs : list transform) :
  Forall2 (fun fn f => build_function fn = Ok (Callable f)) fns fs ->
  build_all fns = (map EvBuild fns, Ok fs).
Proof.
  induction 1 as [|fn f fns fs Hfn _ IH]; [reflexivity|].
  simpl. rewrite Hfn. simpl. now rewrite IH.
Qed.

(** Conversely a successful build has built every function once. *)
Lemma build_all_ok (fns : list func) (t : list event) (fs : list transform) :
  build_all fns = (t, Ok fs) ->
  t = map EvBuild fns
  /\ Forall2 (fun fn f => build_function fn = Ok (Callable f)) fns fs.
Proof.
  revert t fs. induction fns as [|fn fns IH]; intros t fs H; simpl in H.
  - injection H as <- <-. split; constructor.
  - destruct (build_function fn) as [[f|v]|e] eqn:Hfn; simpl in H;
      try discriminate.
    destruct (build_all fns) as [t' [fs'|e]]; [|discriminate].
    injection H as <- <-. destruct (IH _ _ eq_refl) as [-> HF].
    split; [reflexivity|]. now constructor.
Qed.

(** Whatever happens, the functions built are an initial segment of the
    selected ones: none is built twice and none out of order. *)
Lemma build_all_prefix (fns : list func) :
  exists n, fst (build_all fns) = map EvBuild (firstn n fns).
Proof.
  induction fns as [|fn fns [n IH]]; [now exists 0%nat|].
  simpl. destruct (build_function fn) as [[f|v]|e]; simpl;
    try (now exists 1%nat).
  destruct (build_all fns) as [t r]. simpl in *. exists (S n). simpl.
  now rewrite IH.
Qed.

Lemma yields_builds (fns : list func) : yields (map EvBuild fns) = [].
Proof. induction fns; simpl; auto. Qed.

Lemma calls_builds (fns : list func) : calls (map EvBuild fns) = [].
Proof. induction fns; simpl; auto. Qed.

Lemma pulls_builds (fns : list func) : pulls (map EvBuild fns) = [].
Proof. induction fns; simpl; auto. Qed.

Lemma errors_builds (fns : list func) : errors (map EvBuild fns) = [].
Proof. induction fns; simpl; auto. Qed.

Lemma builds_builds (fns : list func) : builds (map EvBuild fns) = fns.
Proof. induction fns; simpl; congruence. Qed.

(** ** Error-free chains *)

Section PureChains.

Variable error_func : handler.

Lemma run_item_pure (chain : list (value -> value)) (item : value) :
  completes (run_item error_func (map pure chain) item)
  /\ outputs (run_item error_func (map pure chain) item) = apply_chain chain item.
Proof.
  revert item. induction chain as [|g chain IH]; intros item.
  - split; reflexivity.
  - simpl map. rewrite run_item_cons.
    change (call_stage error_func (pure g) item)
      with ([EvCall (pure g) item], Ok (g item)).
    cbv beta iota zeta. simpl apply_chain.
    destruct (classify (g item)) as [|item'|elements] eqn:Hc.
    + split; reflexivity.
    + apply classify_single in Hc as [-> _].
      destruct (IH (g item)) as [Hdone Hout]. split.
      * apply seq_completes. split; [reflexivity | assumption].
      * rewrite outputs_seq by reflexivity. now rewrite Hout.
    + apply classify_many in Hc as [Hit ->].
      rewrite run_resolved_iter by assumption.
      assert (Hloop : completes (for_loop (run_item error_func (map pure chain))
                                          (items (iter (g item))))).
      { apply for_loop_completes, Forall_forall. intros x _. apply IH. }
      split.
      * apply seq_completes. split; [reflexivity | assumption].
      * rewrite outputs_seq by reflexivity.
        rewrite for_loop_outputs by assumption. simpl.
        apply flat_map_ext. intros x. apply IH.
Qed.

Lemma run_resolved_pure (chain : list (value -> value)) (S : list value) :
  completes (run_resolved error_func (map pure chain) (Source S None))
  /\ outputs (run_resolved error_func (map pure chain) (Source S None))
     = flat_map (apply_chain chain) S.
Proof.
  rewrite run_resolved_finite.
  assert (Hloop : completes (for_loop (run_item error_func (map pure chain)) S)).
  { apply for_loop_completes, Forall_forall. intros x _. apply run_item_pure. }
  split; [assumption|].
  rewrite for_loop_outputs by assumption.
  apply flat_map_ext. intros x. apply run_item_pure.
Qed.

End PureChains.

(** C2.  When every registered function builds a function that never raises,
    a run over a source [S] that does not fail yields, item after item of
    [S], the chain applied in registration order with fan-out flattened depth
    first ([apply_chain]), and no exception leaves it.  With [up_one] alone
    the source [0, 1, 3] gives [1, 2, 4]. *)
Theorem run_applies_chain_in_order :
  (forall (error_func : handler) (functions_list : list entry)
          (chain : list (value -> value)) (S : list value),
      Forall2 (fun en g => build_function (entry_func en) = Ok (Callable (pure g)))
              functions_list chain ->
      completes (run_pipeline error_func functions_list (Source S None) None None)
      /\ outputs (run_pipeline error_func functions_list (Source S None) None None)
         = flat_map (apply_chain chain) S)
  /\ (forall error_func : handler,
         outputs (run_pipeline error_func
                    (register_bare (builder "up_one" up_one) [])
                    (Source (ints [0; 1; 3]) None) None None)
         = ints [1; 2; 4]).
Proof.
  split; [|reflexivity].
  intros error_func functions_list chain S H.
  assert (Hb : build_all (select functions_list [])
               = (map EvBuild (map entry_func functions_list), Ok (map pure chain))).
  { rewrite select_nil. apply build_all_callable.
    induction H; simpl; constructor; assumption. }
  unfold run_pipeline, get_functions_to_run, groups_to_skip. rewrite Hb.
  destruct (run_resolved_pure error_func chain S) as [Hdone Hout].
  split.
  - apply seq_completes. split; [reflexivity | assumption].
  - rewrite outputs_seq by reflexivity. rewrite Hout.
    unfold outputs, emit, trace. simpl fst. now rewrite yields_builds.
Qed.

Lemma run_applies_chain_in_order_witness :
  outputs (run_pipeline default_error_func
             (register_in "b" (builder "double" (pure double))
                (register_bare (builder "mirror" (pure mirror)) []))
             (Source (ints [1; 0; 2]) None) None None)
  = ints [2; -2; 4; -4].
Proof.
  refine (proj2 (proj1 run_applies_chain_in_order default_error_func
                   (register_in "b" (builder "double" (pure double))
                      (register_bare (builder "mirror" (pure mirror)) []))
                   [mirror; double] (ints [1; 0; 2]) _)).
  repeat constructor.
Defined.

(** ** Dropped items *)

(** C7.  When the function that an item reaches after the functions [pre]
    returns [None], the run of the item ends with that call: nothing is
    yielded for it, no exception leaves it, the functions called are those of
    [pre] and that function and none of the later ones, and the loop goes on
    with the next source item, so that the whole run yields what it yields
    for the items before and for the items after. *)
Theorem drop_removes_item :
  forall (error_func : handler) (pre post : list transform) (function : transform)
         (item current : value) (t : list event)
         (before after : list value) (fail : option exn),
    advance error_func pre item = Some (t, current) ->
    function current = Ok VNone ->
    let chain := pre ++ function :: post in
    run_item error_func chain item = emit (t ++ [EvCall function current])
    /\ outputs (run_item error_func chain item) = []
    /\ completes (run_item error_func chain item)
    /\ map fst (calls (trace (run_item error_func chain item))) = pre ++ [function]
    /\ for_loop (run_item error_func chain) (item :: after)
       = emit (EvPull item :: t ++ [EvCall function current])
         >> for_loop (run_item error_func chain) after
    /\ (completes (run_resolved error_func chain (Source before None)) ->
        outputs (run_resolved error_func chain (Source (before ++ item :: after) fail))
        = outputs (run_resolved error_func chain (Source before None))
          ++ outputs (run_resolved error_func chain (Source after fail))).
Proof.
  intros error_func pre post function item current t before after fail Ha Hf chain.
  assert (Hs : call_stage error_func function current
               = ([EvCall function current], Ok VNone)).
  { unfold call_stage. now rewrite Hf. }
  assert (Hrun : run_item error_func chain item
                 = emit (t ++ [EvCall function current])).
  { unfold chain. eapply run_item_stops; [exact Ha | exact Hs]. }
  assert (Hy : yields (t ++ [EvCall function current]) = []).
  { rewrite yields_app, (advance_yields _ _ _ Ha). reflexivity. }
  repeat split.
  - exact Hrun.
  - rewrite Hrun. exact Hy.
  - now rewrite Hrun.
  - rewrite Hrun. unfold emit, trace. simpl fst.
    rewrite calls_app, map_app, (advance_calls _ _ _ Ha). reflexivity.
  - rewrite for_loop_cons, Hrun. reflexivity.
  - intros Hbefore.
    now apply outputs_without_item with (t := t ++ [EvCall function current]).
Qed.

Lemma drop_removes_item_witness :
  outputs (run_resolved default_error_func [up_one; drop_two; up_one]
             (Source (ints [0; 1; 5]) None))
  = outputs (run_resolved default_error_func [up_one; drop_two; up_one]
               (Source (ints [0]) None))
    ++ outputs (run_resolved default_error_func [up_one; drop_two; up_one]
                  (Source (ints [5]) None)).
Proof.
  refine (proj2 (proj2 (proj2 (proj2 (proj2
            (@drop_removes_item default_error_func [up_one] [up_one] drop_two
               (VInt 1) (VInt 2) [EvCall up_one (VInt 1)]
               (ints [0]) (ints [5]) None _ _))))) _);
    reflexivity.
Defined.

(** ** Recovery by [error_func] *)

Lemma classify_scalar (item : value) :
  is_none item = false -> isinstance_Iterable item = false ->
  classify item = Single item.
Proof. unfold classify. now intros -> ->. Qed.

(** C10.  When the function that an item reaches raises and [error_func]
    returns [None], the item is dropped: its run ends after the one call of
    [error_func], nothing is yielded for it, no exception leaves it, none of
    the later functions is called, the loop goes on with the next source
    item, and the run of the item differs from the one with a function that
    returns [None] at that place only by the call of [error_func]. *)
Theorem recovery_none_drops_item :
  forall (error_func : handler) (pre post : list transform) (function : transform)
         (item current : value) (e : exn) (t : list event)
         (before after : list value) (fail : option exn),
    advance error_func pre item = Some (t, current) ->
    function current = Raise e ->
    error_func current e = Ok VNone ->
    let chain := pre ++ function :: post in
    run_item error_func chain item
    = emit (t ++ [EvCall function current; EvError current e])
    /\ outputs (run_item error_func chain item) = []
    /\ completes (run_item error_func chain item)
    /\ map fst (calls (trace (run_item error_func chain item))) = pre ++ [function]
    /\ for_loop (run_item error_func chain) (item :: after)
       = emit (EvPull item :: t ++ [EvCall function current; EvError current e])
         >> for_loop (run_item error_func chain) after
    /\ (completes (run_resolved error_func chain (Source before None)) ->
        outputs (run_resolved error_func chain (Source (before ++ item :: after) fail))
        = outputs (run_resolved error_func chain (Source before None))
          ++ outputs (run_resolved error_func chain (Source after fail)))
    /\ (forall dropper : transform,
           dropper current = Ok VNone ->
           let dropped := run_item error_func (pre ++ dropper :: post) item in
           outputs (run_item error_func chain item) = outputs dropped
           /\ raised (run_item error_func chain item) = raised dropped
           /\ map snd (calls (trace (run_item error_func chain item)))
              = map snd (calls (trace dropped))).
Proof.
  intros error_func pre post function item current e t before after fail
         Ha Hf He chain.
  assert (Hs : call_stage error_func function current
               = ([EvCall function current; EvError current e], Ok VNone)).
  { unfold call_stage. now rewrite Hf, He. }
  assert (Hrun : run_item error_func chain item
                 = emit (t ++ [EvCall function current; EvError current e])).
  { unfold chain. eapply run_item_stops; [exact Ha | exact Hs]. }
  assert (Hy : yields (t ++ [EvCall function current; EvError current e]) = []).
  { rewrite yields_app, (advance_yields _ _ _ Ha). reflexivity. }
  split; [exact Hrun|].
  split; [rewrite Hrun; exact Hy|].
  split; [now rewrite Hrun|].
  split.
  { rewrite Hrun. unfold emit, trace. simpl fst.
    rewrite calls_app, map_app, (advance_calls _ _ _ Ha). reflexivity. }
  split; [rewrite for_loop_cons, Hrun; reflexivity|].
  split.
  { intros Hbefore.
    now apply outputs_without_item
      with (t := t ++ [EvCall function current; EvError current e]). }
  intros dropper Hd dropped.
  assert (Hdrop : dropped = emit (t ++ [EvCall dropper current])).
  { unfold dropped. eapply run_item_stops; [exact Ha|].
    unfold call_stage. now rewrite Hd. }
  rewrite Hdrop, Hrun. unfold outputs, emit, trace, raised. simpl fst. simpl snd.
  rewrite !yields_app, !calls_app, !map_app, (advance_yields _ _ _ Ha).
  repeat split.
Qed.

Lemma recovery_none_drops_item_witness :
  outputs (run_resolved ignore_errors [up_one; ten_by; up_one]
             (Source (ints [1; -1; 4]) None))
  = outputs (run_resolved ignore_errors [up_one; ten_by; up_one]
               (Source (ints [1]) None))
    ++ outputs (run_resolved ignore_errors [up_one; ten_by; up_one]
                  (Source (ints [4]) None)).
Proof.
  refine (proj1 (proj2 (proj2 (proj2 (proj2 (proj2
            (@recovery_none_drops_item ignore_errors [up_one] [up_one] ten_by
               (VInt (-1)) (VInt 0) (UserError "division by zero")
               [EvCall up_one (VInt (-1))]
               (ints [1]) (ints [4]) None _ _ _)))))) _);
    reflexivity.
Defined.

(** C3, as far as it holds.  When the function that an item reaches raises
    and [error_func] returns a value [Y] that is neither [None] nor iterable,
    the run of the item goes on with [Y] at the next function: the function
    that raised is called once, [error_func] once, and what is yielded for
    the item is what the functions after the one that raised yield for [Y].
    With a function that raises, then [up_one], and an [error_func] that
    returns 99, the source [5] gives [100]. *)
Theorem recovery_resumes_with_substitute :
  (forall (error_func : handler) (pre post : list transform) (function : transform)
          (item current Y : value) (e : exn) (t : list event),
      advance error_func pre item = Some (t, current) ->
      function current = Raise e ->
      error_func current e = Ok Y ->
      is_none Y = false ->
      isinstance_Iterable Y = false ->
      let chain := pre ++ function :: post in
      run_item error_func chain item
      = emit (t ++ [EvCall function current; EvError current e])
        >> run_item error_func post Y
      /\ outputs (run_item error_func chain item) = outputs (run_item error_func post Y))
  /\ outputs (run_pipeline (substitute (VInt 99)) []
                (Source (ints [5]) None) (Some [always_raises; up_one]) None)
     = ints [100].
Proof.
  split; [|reflexivity].
  intros error_func pre post function item current Y e t Ha Hf He Hn Hi chain.
  assert (Hs : call_stage error_func function current
               = ([EvCall function current; EvError current e], Ok Y)).
  { unfold call_stage. now rewrite Hf, He. }
  assert (Hrun : run_item error_func chain item
                 = emit (t ++ [EvCall function current; EvError current e])
                   >> run_item error_func post Y).
  { unfold chain. eapply run_item_continues; [exact Ha | exact Hs |].
    now apply classify_scalar. }
  split; [exact Hrun|].
  rewrite Hrun, outputs_seq by reflexivity.
  unfold outputs at 1, emit, trace. simpl fst.
  rewrite yields_app, (advance_yields _ _ _ Ha). reflexivity.
Qed.

Lemma recovery_resumes_with_substitute_witness :
  outputs (run_item (substitute (VInt 7)) [up_one; ten_by; up_one; twofer] (VInt (-1)))
  = outputs (run_item (substitute (VInt 7)) [up_one; twofer] (VInt 7)).
Proof.
  refine (proj2 (proj1 recovery_resumes_with_substitute (substitute (VInt 7))
                   [up_one] [up_one; twofer] ten_by (VInt (-1)) (VInt 0) (VInt 7)
                   (UserError "division by zero") [EvCall up_one (VInt (-1))]
                   _ _ _ _ _));
    reflexivity.
Defined.

(** The claim C3 fails for an iterable substitute: with the one function
    [always_raises] and an [error_func] that returns the list [1, 2], the
    item 5 gives the two items 1 and 2, whereas the functions after the one
    that raised (there are none) applied to the list give the list itself. *)
Lemma recovery_resumes_counterexample :
  always_raises (VInt 5) = Raise (UserError "boom")
  /\ substitute (VList (ints [1; 2])) (VInt 5) (UserError "boom")
     = Ok (VList (ints [1; 2]))
  /\ is_none (VList (ints [1; 2])) = false
  /\ outputs (run_pipeline (substitute (VList (ints [1; 2]))) []
                (Source (ints [5]) None) (Some [always_raises]) None)
     = ints [1; 2]
  /\ outputs (run_item (substitute (VList (ints [1; 2]))) [] (VList (ints [1; 2])))
     = [VList (ints [1; 2])]
  /\ outputs (run_pipeline (substitute (VList (ints [1; 2]))) []
                (Source (ints [5]) None) (Some [always_raises]) None)
     <> outputs (run_item (substitute (VList (ints [1; 2]))) [] (VList (ints [1; 2]))).
Proof.
  repeat split; discriminate.
Qed.

(** ** A source that raises *)

(** C4.  When every item of the source has been processed without an
    exception leaving the run and the next pull raises [e], the run over the
    failing source is the run over the items followed by the failed pull and
    one call of [error_func] with the item pulled last ([None] when there was
    none) and [e], and by nothing else: whatever [error_func] returns,
    nothing more is pulled or yielded and [error_func] is not called again.
    An exception of [error_func] leaves the run.  The same events make up a
    top-level call, after its functions have been built. *)
Theorem source_failure_ends_run :
  forall (error_func : handler) (functions_list : list entry)
         (skip : option (list string)) (fns : list transform)
         (its : list value) (e : exn),
    completes (for_loop (run_item error_func fns) its) ->
    let r := run_pipeline error_func functions_list (Source its (Some e))
                          (Some fns) skip in
    let finite := run_pipeline error_func functions_list (Source its None)
                               (Some fns) skip in
    trace r = trace finite ++ [EvPullFail e; EvError (last its VNone) e]
    /\ errors (trace r) = errors (trace finite) ++ [(last its VNone, e)]
    /\ outputs r = outputs finite
    /\ pulls (trace r) = pulls (trace finite)
    /\ calls (trace r) = calls (trace finite)
    /\ (forall e', error_func (last its VNone) e = Raise e' -> raised r = Some e')
    /\ (forall tb, get_functions_to_run functions_list skip = (tb, Ok fns) ->
        trace (run_pipeline error_func functions_list (Source its (Some e)) None skip)
        = tb ++ trace finite ++ [EvPullFail e; EvError (last its VNone) e]).
Proof.
  intros error_func functions_list skip fns its e Hloop r finite.
  assert (Hfin : finite = for_loop (run_item error_func fns) its).
  { unfold finite. now rewrite run_pipeline_given, run_resolved_finite. }
  assert (Hr : r = for_loop (run_item error_func fns) its
                   >> ([EvPullFail e; EvError (last its VNone) e],
                       match error_func (last its VNone) e with
                       | Ok _ => None
                       | Raise e' => Some e'
                       end)).
  { reflexivity. }
  assert (Ht : trace r = trace finite ++ [EvPullFail e; EvError (last its VNone) e]).
  { rewrite Hr, Hfin. now rewrite trace_seq. }
  split; [exact Ht|].
  split; [rewrite Ht, errors_app; reflexivity|].
  split; [unfold outputs; rewrite Ht, yields_app; simpl; apply app_nil_r|].
  split; [rewrite Ht, pulls_app; simpl; apply app_nil_r|].
  split; [rewrite Ht, calls_app; simpl; apply app_nil_r|].
  split.
  - intros e' He'. rewrite Hr, raised_seq by assumption.
    unfold raised. simpl. now rewrite He'.
  - intros tb Hb. unfold run_pipeline. rewrite Hb.
    change (run_resolved error_func fns (Source its (Some e))) with r.
    rewrite trace_seq by reflexivity. now rewrite Ht.
Qed.

Lemma source_failure_ends_run_witness :
  trace (run_pipeline give_back [] (Source (ints [1; 2]) (Some (UserError "eof")))
           (Some [up_one]) None)
  = trace (run_pipeline give_back [] (Source (ints [1; 2]) None) (Some [up_one]) None)
    ++ [EvPullFail (UserError "eof"); EvError (VInt 2) (UserError "eof")].
Proof.
  refine (proj1 (@source_failure_ends_run give_back [] None [up_one] (ints [1; 2])
                   (UserError "eof") _)).
  reflexivity.
Defined.

(** ** Which functions a run calls *)

Section TraceInvariant.

Variable Q : event -> Prop.

Lemma Forall_trace_seq (a b : run) :
  Forall Q (trace a) -> Forall Q (trace b) -> Forall Q (trace (a >> b)).
Proof.
  destruct a as [ta [e|]], b as [tb eb]; unfold seq, trace; simpl; intros Ha Hb.
  - exact Ha.
  - apply Forall_app. now split.
Qed.

Lemma Forall_trace_for_loop (body : value -> run) (l : list value) :
  (forall x, Q (EvPull x)) ->
  (forall x, Forall Q (trace (body x))) ->
  Forall Q (trace (for_loop body l)).
Proof.
  intros Hp H. induction l as [|x l IH]; [constructor|].
  rewrite for_loop_cons. repeat apply Forall_trace_seq; auto.
  repeat constructor. apply Hp.
Qed.

End TraceInvariant.

Section ExecutorEvents.

Variable error_func : handler.

Lemma executor_event_weaken (function : transform) (rest : list transform)
      (t : list event) :
  Forall (executor_event rest) t -> Forall (executor_event (function :: rest)) t.
Proof.
  apply Forall_impl. intros [] H; simpl in *; auto.
Qed.

Lemma safe_source_events (fns : list transform) (src : source) :
  Forall (executor_event fns) (trace (snd (safe_source error_func src))).
Proof.
  unfold safe_source. simpl.
  destruct (failure src); repeat constructor.
Qed.

Lemma run_item_events (fns : list transform) (item : value) :
  Forall (executor_event fns) (trace (run_item error_func fns item)).
Proof.
  revert item. induction fns as [|function rest IH]; intros item.
  - repeat constructor.
  - rewrite run_item_cons.
    assert (H0 : Forall (executor_event (function :: rest))
                        (fst (call_stage error_func function item))).
    { unfold call_stage. destruct (function item); repeat constructor. }
    destruct (call_stage error_func function item) as [t0 [item'|e]];
      simpl in H0; [|exact H0].
    destruct (classify item'); [exact H0 | |].
    + apply Forall_trace_seq; [exact H0|].
      apply executor_event_weaken, IH.
    + apply Forall_trace_seq; [exact H0|].
      rewrite run_resolved_unfold. apply Forall_trace_seq.
      * apply Forall_trace_for_loop; [constructor|].
        intros x. apply executor_event_weaken, IH.
      * apply safe_source_events.
Qed.

Lemma run_resolved_events (fns : list transform) (src : source) :
  Forall (executor_event fns) (trace (run_resolved error_func fns src)).
Proof.
  rewrite run_resolved_unfold. apply Forall_trace_seq.
  - apply Forall_trace_for_loop; [constructor|]. apply run_item_events.
  - apply safe_source_events.
Qed.

End ExecutorEvents.

Lemma executor_builds (fns : list transform) (t : list event) :
  Forall (executor_event fns) t -> builds t = [].
Proof.
  induction 1 as [|ev t Hev _ IH]; [reflexivity|].
  destruct ev; simpl in *; auto. contradiction.
Qed.

Lemma executor_calls (fns : list transform) (t : list event) (f : transform)
      (x : value) :
  Forall (executor_event fns) t -> In (f, x) (calls t) -> In f fns.
Proof.
  induction 1 as [|ev t Hev _ IH]; [intros []|].
  destruct ev; simpl in *; auto.
  intros [Heq|Hin]; [|auto]. now injection Heq as <- <-.
Qed.

Lemma Forall2_In_r (A B : Type) (R : A -> B -> Prop) (l : list A) (l' : list B)
      (y : B) :
  Forall2 R l l' -> In y l' -> exists x, In x l /\ R x y.
Proof.
  induction 1 as [|x y' l l' Hxy _ IH]; [intros []|].
  intros [<-|Hin].
  - exists x. split; [now left | assumption].
  - destruct (IH Hin) as [x' [Hx' Hr]]. exists x'. split; [now right | assumption].
Qed.

Lemma In_firstn (A : Type) (n : nat) (l : list A) (x : A) :
  In x (firstn n l) -> In x l.
Proof.
  revert l. induction n as [|n IH]; intros [|y l]; simpl; try tauto.
  intros [H|H]; auto.
Qed.

(** ** Skipped groups *)

Lemma not_in_spec (group : string) (skip : list string) :
  not_in group skip = true <-> ~ In group skip.
Proof.
  unfold not_in. rewrite negb_true_iff. split.
  - intros H Hin. assert (existsb (String.eqb group) skip = true); [|congruence].
    apply existsb_exists. exists group. split; [assumption | apply String.eqb_refl].
  - intros H. destruct (existsb (String.eqb group) skip) eqn:He; [|reflexivity].
    apply existsb_exists in He as [g [Hin Heq]]. apply String.eqb_eq in Heq.
    subst. contradiction.
Qed.

Lemma kept_spec (skip : list string) (functions_list : list entry) (en : entry) :
  In en (kept skip functions_list)
  <-> In en functions_list /\ ~ In (entry_group en) skip.
Proof. unfold kept. now rewrite filter_In, not_in_spec. Qed.

Lemma select_kept (skip : list string) (functions_list : list entry) :
  select functions_list skip = select (kept skip functions_list) [].
Proof. now rewrite select_nil. Qed.

(** A successful resolution has built the function of every kept entry
    once, in registration order. *)
Lemma get_functions_to_run_ok (functions_list : list entry) (skip : list string)
      (t : list event) (fns : list transform) :
  get_functions_to_run functions_list (Some skip) = (t, Ok fns) ->
  t = map EvBuild (map entry_func (kept skip functions_list))
  /\ Forall2 (fun en f => build_function (entry_func en) = Ok (Callable f))
             (kept skip functions_list) fns.
Proof.
  intros H. unfold get_functions_to_run, groups_to_skip, select in H.
  apply build_all_ok in H as [-> HF]. split; [reflexivity|].
  remember (kept skip functions_list) as l eqn:Hl. clear Hl.
  revert fns HF. induction l as [|en l IH]; intros fns HF;
    inversion HF; subst; constructor; auto.
Qed.

(** Any resolution has built an initial segment of them. *)
Lemma get_functions_to_run_prefix (functions_list : list entry)
      (skip : list string) :
  exists n, fst (get_functions_to_run functions_list (Some skip))
            = map EvBuild (firstn n (map entry_func (kept skip functions_list))).
Proof. apply build_all_prefix. Qed.

(** The events of a top-level run: those of the resolution, then those of
    the functions it gave. *)
Lemma run_pipeline_trace (error_func : handler) (functions_list : list entry)
      (src : source) (skip : option (list string)) :
  let r := run_pipeline error_func functions_list src None skip in
  let g := get_functions_to_run functions_list skip in
  match snd g with
  | Ok fns => trace r = fst g ++ trace (run_resolved error_func fns src)
  | Raise e => r = (fst g, Some e)
  end.
Proof.
  cbv zeta. unfold run_pipeline.
  destruct (get_functions_to_run functions_list skip) as [t [fns|e]];
    cbn [fst snd].
  - now rewrite trace_seq.
  - reflexivity.
Qed.

(** C5.  A run with the groups [skip] skipped is, event for event, the run
    of the registry without the entries of those groups: the functions built
    are an initial segment (all of them when building succeeds) of the
    functions of the kept entries in registration order, every function
    built belongs to an entry whose group is not skipped, and every function
    called was built by such an entry.  When building succeeds the functions
    to run are those built by the kept entries, in registration order. *)
Theorem skipped_groups_never_run :
  forall (error_func : handler) (functions_list : list entry) (src : source)
         (skip : list string),
    let r := run_pipeline error_func functions_list src None (Some skip) in
    r = run_pipeline error_func (kept skip functions_list) src None None
    /\ (exists n, builds (trace r)
                  = firstn n (map entry_func (kept skip functions_list)))
    /\ (forall fn, In fn (builds (trace r)) ->
          exists en, In en functions_list /\ entry_func en = fn
                     /\ ~ In (entry_group en) skip)
    /\ (forall f x, In (f, x) (calls (trace r)) ->
          exists en, In en functions_list /\ ~ In (entry_group en) skip
                     /\ build_function (entry_func en) = Ok (Callable f))
    /\ (forall t fns, get_functions_to_run functions_list (Some skip) = (t, Ok fns) ->
          builds t = map entry_func (kept skip functions_list)
          /\ Forall2 (fun en f => build_function (entry_func en) = Ok (Callable f))
                     (kept skip functions_list) fns).
Proof.
  intros error_func functions_list src skip r.
  pose proof (run_pipeline_trace error_func functions_list src (Some skip)) as Ht.
  cbv zeta in Ht. fold r in Ht.
  pose proof (get_functions_to_run_prefix functions_list skip) as [n Hn].
  assert (Hb : exists n, builds (trace r)
                         = firstn n (map entry_func (kept skip functions_list))).
  { destruct (get_functions_to_run functions_list (Some skip)) as [t [fns|e]] eqn:Hg;
      cbn [fst snd] in Ht, Hn.
    - destruct (get_functions_to_run_ok _ _ Hg) as [-> _].
      exists (List.length (map entry_func (kept skip functions_list))).
      rewrite Ht, builds_app, builds_builds, firstn_all.
      rewrite (executor_builds (run_resolved_events error_func fns src)).
      apply app_nil_r.
    - exists n. rewrite Ht. unfold trace. cbn [fst]. now rewrite Hn, builds_builds. }
  split; [|split; [exact Hb|split; [|split]]].
  - unfold r, run_pipeline, get_functions_to_run, groups_to_skip.
    now rewrite (select_kept skip functions_list).
  - intros fn Hin. destruct Hb as [m Hm]. rewrite Hm in Hin.
    apply In_firstn, in_map_iff in Hin as [en [<- Hen]].
    apply kept_spec in Hen as [Hen Hg]. now exists en.
  - intros f x Hin.
    destruct (get_functions_to_run functions_list (Some skip)) as [t [fns|e]] eqn:Hg;
      cbn [fst snd] in Ht, Hn.
    + destruct (get_functions_to_run_ok _ _ Hg) as [-> HF].
      rewrite Ht, calls_app, calls_builds in Hin. simpl in Hin.
      apply (@executor_calls fns _ f x (run_resolved_events error_func fns src))
        in Hin.
      destruct (@Forall2_In_r _ _ _ _ _ _ HF Hin) as [en [Hen Hbuilt]].
      apply kept_spec in Hen as [Hen Hgroup]. now exists en.
    + rewrite Ht in Hin. unfold trace in Hin. cbn [fst] in Hin.
      rewrite Hn, calls_builds in Hin. destruct Hin.
  - intros t fns Hg. destruct (get_functions_to_run_ok _ _ Hg) as [-> HF].
    split; [apply builds_builds | exact HF].
Qed.

Lemma skipped_groups_never_run_witness :
  run_pipeline ignore_errors grouped_registry (Source (ints [0; 1; 3]) None)
    None (Some ["fan"])
  = run_pipeline ignore_errors (register_bare (builder "up_one" up_one) [])
      (Source (ints [0; 1; 3]) None) None None
  /\ outputs (run_pipeline ignore_errors grouped_registry
                (Source (ints [0; 1; 3]) None) None (Some ["fan"]))
     = ints [1; 2; 4].
Proof.
  split.
  - exact (proj1 (skipped_groups_never_run ignore_errors grouped_registry
                    (Source (ints [0; 1; 3]) None) ["fan"])).
  - reflexivity.
Defined.

(** ** Functions that do not build a function *)

(** The first result that is not callable stops the resolution with the
    assertion's error, when no function raised before. *)
Lemma build_all_not_callable (fns : list func) :
  Forall builds_something fns ->
  Exists builds_no_function fns ->
  exists n, build_all fns
            = (map EvBuild (firstn n fns), Raise (AssertionError assert_message)).
Proof.
  induction fns as [|fn fns IH]; intros Hall Hex; [inversion Hex|].
  inversion Hall as [|? ? [o Ho] Hall']; subst. simpl. rewrite Ho.
  destruct o as [f|v]; simpl.
  - inversion Hex as [? ? [v Hv]|? ? Hex']; subst; [congruence|].
    destruct (IH Hall' Hex') as [n Hn]. rewrite Hn. now exists (S n).
  - now exists 1%nat.
Qed.

(** A result that is not callable makes the resolution fail in any case. *)
Lemma build_all_fails (fns : list func) :
  Exists builds_no_function fns -> exists e, snd (build_all fns) = Raise e.
Proof.
  induction 1 as [fn fns [v Hv]|fn fns _ IH]; simpl.
  - rewrite Hv. simpl. eauto.
  - destruct (build_function fn) as [[f|v]|e]; simpl; eauto.
    destruct IH as [e He]. destruct (build_all fns) as [t r]. simpl in *.
    rewrite He. eauto.
Qed.

(** C6.  The resolver goes through the registry in registration order,
    leaves out the entries of skipped groups and builds each of the others
    at most once, in order, and all of them exactly once when it succeeds.
    If some kept function builds something that is not callable the
    resolution fails, with the assertion's error when no builder raised by
    itself, and the run then consists of the builds alone: nothing is pulled
    from the source, no function is called, nothing is yielded. *)
Theorem resolution_checks_callable :
  forall (error_func : handler) (functions_list : list entry) (src : source)
         (skip : option (list string)),
    let selected := map entry_func (kept (groups_to_skip skip) functions_list) in
    let resolution := get_functions_to_run functions_list skip in
    let r := run_pipeline error_func functions_list src None skip in
    (exists n, fst resolution = map EvBuild (firstn n selected))
    /\ (forall fns, snd resolution = Ok fns ->
          fst resolution = map EvBuild selected
          /\ Forall2 (fun fn f => build_function fn = Ok (Callable f)) selected fns)
    /\ (Exists builds_no_function selected ->
          exists e, snd resolution = Raise e
                    /\ r = (fst resolution, Some e)
                    /\ pulls (trace r) = [] /\ calls (trace r) = []
                    /\ errors (trace r) = [] /\ outputs r = [])
    /\ (Forall builds_something selected ->
        Exists builds_no_function selected ->
          snd resolution = Raise (AssertionError assert_message)
          /\ raised r = Some (AssertionError assert_message)).
Proof.
  intros error_func functions_list src skip selected resolution r.
  assert (Hsel : resolution = build_all selected) by reflexivity.
  destruct (build_all_prefix selected) as [n Hn].
  split; [exists n; now rewrite Hsel|].
  split; [|split].
  - intros fns Hok. rewrite Hsel in *.
    destruct (build_all selected) as [t res] eqn:Hb. simpl in Hok. subst res.
    apply build_all_ok in Hb as [-> HF]. split; [reflexivity | exact HF].
  - intros Hex. destruct (build_all_fails Hex) as [e He]. exists e.
    rewrite Hsel. split; [exact He|].
    assert (Hr : r = (fst (build_all selected), Some e)).
    { unfold r, run_pipeline. fold resolution. rewrite Hsel.
      destruct (build_all selected) as [t res]. simpl in He. now subst res. }
    split; [exact Hr|]. rewrite Hr. unfold outputs, trace. cbn [fst].
    rewrite Hn, pulls_builds, calls_builds, errors_builds, yields_builds.
    repeat split.
  - intros Hall Hex. destruct (build_all_not_callable Hall Hex) as [m Hm].
    rewrite Hsel. split; [now rewrite Hm|].
    unfold r, run_pipeline. fold resolution. rewrite Hsel, Hm. reflexivity.
Qed.

Lemma resolution_checks_callable_witness :
  run_pipeline default_error_func
    (register_bare (builder "twofer" twofer)
       (register_bare broken (register_bare (builder "up_one" up_one) [])))
    (Source (ints [0; 1; 3]) None) None None
  = ([EvBuild (builder "up_one" up_one); EvBuild broken],
     Some (AssertionError assert_message)).
Proof.
  pose proof (resolution_checks_callable default_error_func
                (register_bare (builder "twofer" twofer)
                   (register_bare broken
                      (register_bare (builder "up_one" up_one) [])))
                (Source (ints [0; 1; 3]) None) None) as H.
  cbv zeta in H. destruct H as [_ [_ [H _]]].
  assert (Hex : Exists builds_no_function
                  [builder "up_one" up_one; broken; builder "twofer" twofer]).
  { apply Exists_cons_tl, Exists_cons_hd. exists (VInt 7). reflexivity. }
  destruct (H Hex) as [e [He [Hr _]]].
  injection He as <-. exact Hr.
Defined.

(** ** The registry over time *)

Lemma register_in_app (group : string) (fn : func) (functions_list : list entry) :
  register_in group fn functions_list
  = functions_list ++ [(group, func_name fn, fn)].
Proof. reflexivity. Qed.

Lemma register_all_app (regs : list (string * func)) (functions_list : list entry) :
  register_all regs functions_list = functions_list ++ map entry_of regs.
Proof.
  revert functions_list. induction regs as [|gf regs IH]; intros fl; simpl.
  - now rewrite app_nil_r.
  - unfold register_all in IH. rewrite IH, register_in_app, <- app_assoc.
    reflexivity.
Qed.

Lemma step_extends (functions_list : list entry) (op : operation) :
  exists added, step functions_list op = functions_list ++ added.
Proof.
  destruct op; simpl.
  - now exists [(EmptyString, func_name fn, fn)].
  - now exists [(group, func_name fn, fn)].
  - exists []. now rewrite app_nil_r.
  - exists []. now rewrite app_nil_r.
Qed.

(** C8.  Registering appends the entry [(group, name, function)] at the end
    of the list; the bare annotator registers under the empty group, which
    is also the default of the parameter; the entries already there keep
    their places and contents, through any sequence of registrations,
    resolutions and runs; the same function can be registered twice;
    registrations under any interleaving of groups end up in the order in
    which they were made, and the functions selected for a run are the
    non-skipped ones in that same order. *)
Theorem registration_preserves_order :
  forall (functions_list : list entry) (fn : func) (group : string),
    register_in group fn functions_list
    = functions_list ++ [(group, func_name fn, fn)]
    /\ register_bare fn functions_list
       = functions_list ++ [(EmptyString, func_name fn, fn)]
    /\ default_group = ArgGroup EmptyString
    /\ (forall n en, nth_error functions_list n = Some en ->
          nth_error (register_in group fn functions_list) n = Some en)
    /\ register_in group fn (register_in group fn functions_list)
       = functions_list ++ [(group, func_name fn, fn); (group, func_name fn, fn)]
    /\ (forall regs, register_all regs functions_list
                     = functions_list ++ map entry_of regs)
    /\ (forall regs skip,
          select (register_all regs functions_list) skip
          = select functions_list skip
            ++ map snd (filter (fun gf => not_in (fst gf) skip) regs))
    /\ (forall ops, exists added,
          fold_left step ops functions_list = functions_list ++ added).
Proof.
  intros functions_list fn group.
  split; [reflexivity|]. split; [reflexivity|]. split; [reflexivity|].
  split; [|split; [|split; [|split]]].
  - intros n en H. rewrite register_in_app, nth_error_app1; [assumption|].
    apply nth_error_Some. congruence.
  - rewrite !register_in_app, <- app_assoc. reflexivity.
  - intros regs. apply register_all_app.
  - intros regs skip. rewrite register_all_app, select_app. f_equal.
    unfold select. induction regs as [|gf regs IH]; [reflexivity|].
    simpl. unfold entry_group at 1. simpl.
    destruct (not_in (fst gf) skip); simpl; now rewrite IH.
  - intros ops. revert functions_list.
    induction ops as [|op ops IH]; intros fl; simpl.
    + exists []. now rewrite app_nil_r.
    + destruct (step_extends fl op) as [a Ha].
      destruct (IH (step fl op)) as [b Hb].
      exists (a ++ b). now rewrite Hb, Ha, app_assoc.
Qed.

Lemma registration_preserves_order_witness :
  register_all [("a", builder "f" up_one); ("b", builder "g" twofer);
                ("a", builder "f" up_one)] []
  = [("a", "f", builder "f" up_one); ("b", "g", builder "g" twofer);
     ("a", "f", builder "f" up_one)]
  /\ select (register_all [("a", builder "f" up_one); ("b", builder "g" twofer);
                           ("a", builder "f" up_one)] []) ["b"]
     = [builder "f" up_one; builder "f" up_one].
Proof.
  pose proof (registration_preserves_order [] (builder "f" up_one) "a")
    as [_ [_ [_ [_ [_ [H1 [H2 _]]]]]]].
  split.
  - exact (H1 [("a", builder "f" up_one); ("b", builder "g" twofer);
               ("a", builder "f" up_one)]).
  - exact (H2 [("a", builder "f" up_one); ("b", builder "g" twofer);
               ("a", builder "f" up_one)] ["b"]).
Defined.

(** ** Dispatch on the value *)

(** C9, as far as it holds.  The result of a function is dispatched by
    inspecting the value: [None] ends the run of the item, a list is fanned
    out over its elements and a string over its characters, each of them
    going through the remaining functions as a string of length one, and
    only a value that is neither [None] nor iterable is passed on as one
    item.  After the last function a string result is yielded character by
    character. *)
Theorem results_dispatched_by_inspection :
  forall (error_func : handler) (function : transform) (rest : list transform)
         (item result : value),
    function item = Ok result ->
    run_item error_func (function :: rest) item
    = emit [EvCall function item]
      >> match result with
         | VNone => emit []
         | VInt _ => run_item error_func rest result
         | VStr s => for_loop (run_item error_func rest) (chars s)
         | VList l => for_loop (run_item error_func rest) l
         end
    /\ (forall s, result = VStr s ->
          outputs (run_item error_func [function] item) = chars s).
Proof.
  intros error_func function rest item result Hf.
  assert (Hrun : forall fns,
             run_item error_func (function :: fns) item
             = emit [EvCall function item]
               >> match result with
                  | VNone => emit []
                  | VInt _ => run_item error_func fns result
                  | VStr s => for_loop (run_item error_func fns) (chars s)
                  | VList l => for_loop (run_item error_func fns) l
                  end).
  { intros fns. rewrite run_item_cons. unfold call_stage. rewrite Hf.
    destruct result as [|z|s|l].
    - reflexivity.
    - reflexivity.
    - change (classify (VStr s)) with (Many (chars s)). cbv iota.
      now rewrite (run_resolved_iter error_func fns (VStr s)).
    - change (classify (VList l)) with (Many l). cbv iota.
      now rewrite (run_resolved_iter error_func fns (VList l)). }
  split; [apply Hrun|].
  intros s ->. rewrite Hrun, outputs_seq by reflexivity.
  assert (Hdone : completes (for_loop (run_item error_func []) (chars s))).
  { apply for_loop_completes, Forall_forall. intros x _. reflexivity. }
  rewrite for_loop_outputs by assumption. clear. simpl.
  induction (chars s) as [|c l IH]; [reflexivity|]. simpl. now rewrite IH.
Qed.

Lemma results_dispatched_by_inspection_witness :
  outputs (run_item default_error_func [to_text] (VInt 0)) = [VStr "a"; VStr "b"].
Proof.
  exact (proj2 (@results_dispatched_by_inspection default_error_func to_text []
                  (VInt 0) (VStr "ab") eq_refl) "ab" eq_refl).
Defined.

(** The claim C9 fails: the text ["ab"] returned by the only function of a
    chain is not yielded as one item, as the empty remaining chain applied to
    a single item would, but as its two characters. *)
Lemma text_result_counterexample :
  to_text (VInt 0) = Ok (VStr "ab")
  /\ outputs (run_pipeline default_error_func [] (Source [VInt 0] None)
                (Some [to_text]) None)
     = [VStr "a"; VStr "b"]
  /\ outputs (run_item default_error_func [] (VStr "ab")) = [VStr "ab"]
  /\ outputs (run_pipeline default_error_func [] (Source [VInt 0] None)
                (Some [to_text]) None)
     <> outputs (run_item default_error_func [] (VStr "ab")).
Proof.
  repeat split; discriminate.
Qed.

(** ** Further behaviour of the executor *)

Lemma for_loop_yield_all (error_func : handler) (l : list value) :
  for_loop (run_item error_func []) l
  = emit (flat_map (fun x => [EvPull x; EvYield x]) l).
Proof.
  induction l as [|x l IH]; [reflexivity|].
  rewrite for_loop_cons, IH. reflexivity.
Qed.

Lemma yields_pull_yield (l : list value) :
  yields (flat_map (fun x => [EvPull x; EvYield x]) l) = l.
Proof. induction l as [|x l IH]; simpl; congruence. Qed.

Lemma calls_pull_yield (l : list value) :
  calls (flat_map (fun x => [EvPull x; EvYield x]) l) = [].
Proof. induction l as [|x l IH]; simpl; congruence. Qed.

Lemma kept_none (skip : list string) (functions_list : list entry) :
  (forall en, In en functions_list -> In (entry_group en) skip) ->
  kept skip functions_list = [].
Proof.
  intros H. induction functions_list as [|en l IH]; [reflexivity|].
  simpl. destruct (not_in (entry_group en) skip) eqn:Hn.
  - apply not_in_spec in Hn. exfalso. apply Hn, H. now left.
  - apply IH. intros en' Hin. apply H. now right.
Qed.

(** X1.  With no function to run every item of the source is yielded as it
    is, [None] and iterables included, and nothing is called; this is what a
    top-level run does when the group of every registered function is
    skipped, and then nothing is built either. *)
Theorem empty_chain_yields_source :
  forall (error_func : handler) (S : list value) (fail : option exn),
    outputs (run_resolved error_func [] (Source S fail)) = S
    /\ calls (trace (run_resolved error_func [] (Source S fail))) = []
    /\ (forall (functions_list : list entry) (skip : list string),
          (forall en, In en functions_list -> In (entry_group en) skip) ->
          let r := run_pipeline error_func functions_list (Source S fail)
                                None (Some skip) in
          outputs r = S /\ builds (trace r) = [] /\ calls (trace r) = []).
Proof.
  intros error_func S fail.
  assert (Hout : outputs (run_resolved error_func [] (Source S fail)) = S).
  { rewrite outputs_run_resolved. simpl items. rewrite for_loop_yield_all.
    apply yields_pull_yield. }
  assert (Hcalls : calls (trace (run_resolved error_func [] (Source S fail))) = []).
  { pose proof (run_resolved_events error_func [] (Source S fail)) as He.
    destruct (calls (trace (run_resolved error_func [] (Source S fail))))
      as [|[f x] l] eqn:Hc; [reflexivity|].
    exfalso. apply (@executor_calls [] _ f x He). rewrite Hc. now left. }
  split; [exact Hout|]. split; [exact Hcalls|].
  intros functions_list skip Hall r.
  assert (Hr : r = run_resolved error_func [] (Source S fail)).
  { unfold r, run_pipeline, get_functions_to_run, groups_to_skip, select.
    rewrite (kept_none _ _ Hall). simpl. apply seq_nil_l. }
  rewrite Hr. repeat split; try assumption.
  apply (executor_builds (run_resolved_events error_func [] (Source S fail))).
Qed.

Lemma empty_chain_yields_source_witness :
  outputs (run_pipeline default_error_func grouped_registry
             (Source [VNone; VList (ints [1; 2]); VStr "ab"] None)
             None (Some ["fan"; EmptyString]))
  = [VNone; VList (ints [1; 2]); VStr "ab"].
Proof.
  refine (proj1 (proj2 (proj2 (empty_chain_yields_source default_error_func
                   [VNone; VList (ints [1; 2]); VStr "ab"] None))
                   grouped_registry ["fan"; EmptyString] _)).
  intros en [<-|[<-|[]]]; simpl; auto.
Defined.

(** X2.  A function that returns an empty iterable (an empty list or an
    empty string) for the item that reaches it drops the item as [None]
    would: the run of the item ends with that call, yields nothing and
    raises nothing, whatever functions follow. *)
Theorem empty_fan_out_drops_item :
  forall (error_func : handler) (pre post : list transform) (function : transform)
         (item current result : value) (t : list event),
    advance error_func pre item = Some (t, current) ->
    function current = Ok result ->
    classify result = Many [] ->
    run_item error_func (pre ++ function :: post) item
    = emit (t ++ [EvCall function current])
    /\ outputs (run_item error_func (pre ++ function :: post) item) = []
    /\ completes (run_item error_func (pre ++ function :: post) item).
Proof.
  intros error_func pre post function item current result t Ha Hf Hc.
  assert (Hrun : run_item error_func (pre ++ function :: post) item
                 = emit (t ++ [EvCall function current])).
  { rewrite (run_item_advance _ _ (function :: post) _ Ha), run_item_cons.
    unfold call_stage. rewrite Hf, Hc.
    apply classify_many in Hc as [Hit Hnil].
    rewrite run_resolved_iter by assumption. rewrite <- Hnil. simpl for_loop.
    now rewrite seq_nil_r, emit_seq_emit. }
  rewrite Hrun. repeat split.
  unfold outputs, emit, trace. simpl fst.
  rewrite yields_app, (advance_yields _ _ _ Ha). reflexivity.
Qed.

Lemma empty_fan_out_drops_item_witness :
  outputs (run_item default_error_func
             [up_one; (fun _ => Ok (VStr EmptyString)); twofer] (VInt 1))
  = [].
Proof.
  refine (proj1 (proj2 (@empty_fan_out_drops_item default_error_func
                          [up_one] [twofer] (fun _ => Ok (VStr EmptyString))
                          (VInt 1) (VInt 2) (VStr EmptyString)
                          [EvCall up_one (VInt 1)] _ _ _)));
    reflexivity.
Defined.

(** X3.  When the last function returns an iterable, its elements are
    yielded as they are, one level deep: an element that is [None] is
    yielded and not dropped, an element that is itself a list is yielded
    as a list. *)
Theorem last_stage_fan_out_yields_elements :
  forall (error_func : handler) (pre : list transform) (function : transform)
         (item current result : value) (t : list event),
    advance error_func pre item = Some (t, current) ->
    function current = Ok result ->
    isinstance_Iterable result = true ->
    outputs (run_item error_func (pre ++ [function]) item) = items (iter result)
    /\ completes (run_item error_func (pre ++ [function]) item).
Proof.
  intros error_func pre function item current result t Ha Hf Hit.
  assert (Hc : classify result = Many (items (iter result))).
  { unfold classify. rewrite Hit. now destruct result. }
  assert (Hrun : run_item error_func (pre ++ [function]) item
                 = emit (t ++ [EvCall function current])
                   >> for_loop (run_item error_func []) (items (iter result))).
  { rewrite (run_item_advance _ _ [function] _ Ha), run_item_cons.
    unfold call_stage. rewrite Hf, Hc.
    rewrite run_resolved_iter by assumption.
    now rewrite <- seq_assoc, emit_seq_emit. }
  rewrite Hrun, for_loop_yield_all, emit_seq_emit. split; [|reflexivity].
  unfold outputs, emit, trace. simpl fst.
  rewrite !yields_app, (advance_yields _ _ _ Ha), yields_pull_yield.
  reflexivity.
Qed.

Lemma last_stage_fan_out_yields_elements_witness :
  outputs (run_item default_error_func
             [up_one; (fun x => Ok (VList [VNone; VList [x; x]; x]))] (VInt 1))
  = [VNone; VList [VInt 2; VInt 2]; VInt 2].
Proof.
  refine (proj1 (@last_stage_fan_out_yields_elements default_error_func
                   [up_one] (fun x => Ok (VList [VNone; VList [x; x]; x]))
                   (VInt 1) (VInt 2)
                   (VList [VNone; VList [VInt 2; VInt 2]; VInt 2])
                   [EvCall up_one (VInt 1)] _ _ _));
    reflexivity.
Defined.

(** A run stops at the first item whose processing raises. *)
Lemma run_resolved_stops_at (error_func : handler) (chain : list transform)
      (before after : list value) (item : value) (fail : option exn) (e : exn) :
  completes (run_resolved error_func chain (Source before None)) ->
  raised (run_item error_func chain item) = Some e ->
  run_resolved error_func chain (Source (before ++ item :: after) fail)
  = (trace (run_resolved error_func chain (Source before None))
       ++ EvPull item :: trace (run_item error_func chain item),
     Some e).
Proof.
  rewrite run_resolved_finite. intros Hbefore Hitem.
  rewrite run_resolved_unfold. simpl items.
  rewrite for_loop_app, for_loop_cons.
  destruct (for_loop (run_item error_func chain) before) as [tb eb].
  unfold completes, raised in Hbefore. simpl in Hbefore. subst eb.
  destruct (run_item error_func chain item) as [ti ei].
  unfold raised in Hitem. simpl in Hitem. subst ei. reflexivity.
Qed.

(** X4.  When the processing of an item raises (because [error_func]
    raised), the run ends there with that exception: what was yielded before
    stands, the items after it are never pulled, and [error_func] is not
    called for the source, however the source would have ended. *)
Theorem failure_stops_run :
  forall (error_func : handler) (chain : list transform)
         (before after : list value) (item : value) (fail : option exn) (e : exn),
    completes (run_resolved error_func chain (Source before None)) ->
    raised (run_item error_func chain item) = Some e ->
    let r := run_resolved error_func chain (Source (before ++ item :: after) fail) in
    raised r = Some e
    /\ trace r = trace (run_resolved error_func chain (Source before None))
                 ++ EvPull item :: trace (run_item error_func chain item)
    /\ outputs r = outputs (run_resolved error_func chain (Source before None))
                   ++ outputs (run_item error_func chain item).
Proof.
  intros error_func chain before after item fail e Hbefore Hitem r.
  unfold r.
  rewrite (@run_resolved_stops_at error_func chain before after item fail e
             Hbefore Hitem).
  repeat split. unfold outputs, trace. simpl fst. now rewrite yields_app.
Qed.

Lemma failure_stops_run_witness :
  run_resolved default_error_func [twofer; ten_by] (Source (ints [5; 0; 2]) None)
  = ([EvPull (VInt 5); EvCall twofer (VInt 5);
      EvPull (VInt 5); EvCall ten_by (VInt 5); EvYield (VInt 2);
      EvPull (VInt 5); EvCall ten_by (VInt 5); EvYield (VInt 2);
      EvPull (VInt 0); EvCall twofer (VInt 0);
      EvPull (VInt 0); EvCall ten_by (VInt 0);
      EvError (VInt 0) (UserError "division by zero")],
     Some (UserError "division by zero")).
Proof.
  pose proof (@failure_stops_run default_error_func [twofer; ten_by]
                (ints [5]) (ints [2]) (VInt 0) None
                (UserError "division by zero") eq_refl eq_refl) as [H1 [H2 _]].
  apply injective_projections; [exact H2 | exact H1].
Defined.

(** X5.  With [default_error_func] an exception raised by a function is
    fatal: the handler is called once with the item the function was given
    and the exception, and that same exception leaves the run; none of the
    later functions is called for the item. *)
Theorem default_handler_reraises :
  forall (pre post : list transform) (function : transform)
         (item current : value) (e : exn) (t : list event)
         (before after : list value) (fail : option exn),
    advance default_error_func pre item = Some (t, current) ->
    function current = Raise e ->
    let chain := pre ++ function :: post in
    run_item default_error_func chain item
    = (t ++ [EvCall function current; EvError current e], Some e)
    /\ (completes (run_resolved default_error_func chain (Source before None)) ->
        raised (run_resolved default_error_func chain
                  (Source (before ++ item :: after) fail)) = Some e
        /\ outputs (run_resolved default_error_func chain
                      (Source (before ++ item :: after) fail))
           = outputs (run_resolved default_error_func chain (Source before None))).
Proof.
  intros pre post function item current e t before after fail Ha Hf chain.
  assert (Hrun : run_item default_error_func chain item
                 = (t ++ [EvCall function current; EvError current e], Some e)).
  { unfold chain. rewrite (run_item_advance _ _ (function :: post) _ Ha).
    rewrite run_item_cons. unfold call_stage, default_error_func. rewrite Hf.
    reflexivity. }
  split; [exact Hrun|]. intros Hbefore.
  assert (Hr : raised (run_item default_error_func chain item) = Some e)
    by now rewrite Hrun.
  rewrite (@run_resolved_stops_at default_error_func chain before after item
             fail e Hbefore Hr).
  split; [reflexivity|]. unfold outputs, trace. simpl fst.
  rewrite yields_app, Hrun. simpl fst.
  change (yields (EvPull item :: t ++ [EvCall function current; EvError current e]))
    with (yields (t ++ [EvCall function current; EvError current e])).
  rewrite yields_app, (advance_yields _ _ _ Ha). simpl. now rewrite app_nil_r.
Qed.

Lemma default_handler_reraises_witness :
  run_item default_error_func [up_one; ten_by; up_one] (VInt (-1))
  = ([EvCall up_one (VInt (-1)); EvCall ten_by (VInt 0);
      EvError (VInt 0) (UserError "division by zero")],
     Some (UserError "division by zero")).
Proof.
  refine (proj1 (@default_handler_reraises [up_one] [up_one] ten_by
                   (VInt (-1)) (VInt 0) (UserError "division by zero")
                   [EvCall up_one (VInt (-1))] [] [] None _ _));
    reflexivity.
Defined.

(** X6.  When a function raises and [error_func] returns an iterable, the
    elements of that iterable go through the functions after the one that
    raised, one after the other, exactly as if the function had returned the
    iterable. *)
Theorem recovery_iterable_fans_out :
  forall (error_func : handler) (pre post : list transform) (function : transform)
         (item current Y : value) (e : exn) (t : list event),
    advance error_func pre item = Some (t, current) ->
    function current = Raise e ->
    error_func current e = Ok Y ->
    isinstance_Iterable Y = true ->
    let chain := pre ++ function :: post in
    run_item error_func chain item
    = emit (t ++ [EvCall function current; EvError current e])
      >> for_loop (run_item error_func post) (items (iter Y))
    /\ (forall returning : transform,
           returning current = Ok Y ->
           outputs (run_item error_func chain item)
           = outputs (run_item error_func (pre ++ returning :: post) item)).
Proof.
  intros error_func pre post function item current Y e t Ha Hf He Hit chain.
  assert (Hc : classify Y = Many (items (iter Y))).
  { unfold classify. rewrite Hit. now destruct Y. }
  assert (Hrun : run_item error_func chain item
                 = emit (t ++ [EvCall function current; EvError current e])
                   >> for_loop (run_item error_func post) (items (iter Y))).
  { unfold chain. rewrite (run_item_advance _ _ (function :: post) _ Ha).
    rewrite run_item_cons. unfold call_stage. rewrite Hf, He, Hc.
    rewrite run_resolved_iter by assumption.
    now rewrite <- seq_assoc, emit_seq_emit. }
  split; [exact Hrun|]. intros returning Hr.
  rewrite Hrun, (run_item_advance _ _ (returning :: post) _ Ha), run_item_cons.
  unfold call_stage. rewrite Hr, Hc, run_resolved_iter by assumption.
  rewrite <- seq_assoc, emit_seq_emit, !outputs_seq by reflexivity.
  unfold outputs at 1 3, emit, trace. simpl fst.
  now rewrite !yields_app, (advance_yields _ _ _ Ha).
Qed.

Lemma recovery_iterable_fans_out_witness :
  run_item (substitute (VList (ints [1; 2]))) [always_raises; up_one] (VInt 5)
  = emit [EvCall always_raises (VInt 5); EvError (VInt 5) (UserError "boom")]
    >> for_loop (run_item (substitute (VList (ints [1; 2]))) [up_one]) (ints [1; 2]).
Proof.
  refine (proj1 (@recovery_iterable_fans_out (substitute (VList (ints [1; 2])))
                   [] [up_one] always_raises (VInt 5) (VInt 5)
                   (VList (ints [1; 2])) (UserError "boom") [] _ _ _ _));
    reflexivity.
Defined.

(** ** Chains without fan-out *)

Section NoFanOut.

Variable error_func : handler.
Hypothesis handler_flat : handler_never_iterable error_func.

Lemma call_stage_pulls (function : transform) (item : value) :
  pulls (fst (call_stage error_func function item)) = [].
Proof. unfold call_stage. destruct (function item); reflexivity. Qed.

Lemma call_stage_flat (function : transform) (item r : value) (t : list event) :
  never_iterable function ->
  call_stage error_func function item = (t, Ok r) ->
  isinstance_Iterable r = false.
Proof.
  unfold call_stage. intros Hf H. destruct (function item) as [r'|e] eqn:Hr.
  - injection H as _ <-. eapply Hf. eassumption.
  - injection H as _ H. eapply handler_flat. eassumption.
Qed.

(** One item gives at most one, and no item is pulled while it is
    processed. *)
Lemma run_item_flat (fns : list transform) (item : value) :
  Forall never_iterable fns ->
  pulls (trace (run_item error_func fns item)) = []
  /\ (List.length (outputs (run_item error_func fns item)) <= 1)%nat.
Proof.
  intros Hall. revert item. induction Hall as [|function rest Hf _ IH]; intros item.
  - split; [reflexivity | simpl; lia].
  - rewrite run_item_cons.
    pose proof (call_stage_pulls function item) as Hp.
    pose proof (call_stage_yields error_func function item) as Hy.
    pose proof (@call_stage_flat function item) as Hflat.
    destruct (call_stage error_func function item) as [t0 [item'|e]];
      simpl in Hp, Hy; unfold outputs, trace.
    + specialize (Hflat item' t0 Hf eq_refl).
      unfold classify. rewrite Hflat. destruct (is_none item').
      * simpl fst. rewrite Hp, Hy. split; [reflexivity | simpl; lia].
      * rewrite seq_emit. simpl fst. rewrite pulls_app, yields_app, Hp, Hy.
        apply IH.
    + simpl fst. rewrite Hp, Hy. split; [reflexivity | simpl; lia].
Qed.

Lemma for_loop_flat (fns : list transform) (l : list value) :
  Forall never_iterable fns ->
  (exists n, pulls (trace (for_loop (run_item error_func fns) l)) = firstn n l)
  /\ (List.length (outputs (for_loop (run_item error_func fns) l))
      <= List.length l)%nat.
Proof.
  intros Hall. induction l as [|x l [[n Hn] Hlen]].
  - split; [now exists 0%nat | simpl; lia].
  - rewrite for_loop_cons. destruct (run_item_flat x Hall) as [Hp Hy].
    destruct (run_item error_func fns x) as [tx [e|]] eqn:Hx;
      unfold outputs, trace in *; simpl fst in *.
    + split; [exists 1%nat|]; simpl; rewrite ?Hp; [reflexivity | lia].
    + destruct (for_loop (run_item error_func fns) l) as [tl el].
      simpl fst in *. split.
      * exists (Datatypes.S n). simpl. rewrite pulls_app, Hp, Hn. reflexivity.
      * simpl. rewrite yields_app, length_app. lia.
Qed.

End NoFanOut.

(** X7.  When neither the functions nor [error_func] ever return an
    iterable, the pipeline is a filter-map: every source item gives at most
    one output, so a run yields at most as many items as its source has, and
    the only items pulled are items of the source, in order. *)
Theorem no_fan_out_at_most_one :
  forall (error_func : handler) (fns : list transform) (src : source),
    handler_never_iterable error_func ->
    Forall never_iterable fns ->
    (forall item,
        (List.length (outputs (run_item error_func fns item)) <= 1)%nat)
    /\ (List.length (outputs (run_resolved error_func fns src))
        <= List.length (items src))%nat
    /\ (exists n, pulls (trace (run_resolved error_func fns src))
                  = firstn n (items src)).
Proof.
  intros error_func fns src Hh Hall.
  split; [intros item; now apply run_item_flat|].
  destruct (for_loop_flat Hh (items src) Hall) as [[n Hn] Hlen].
  split.
  - now rewrite outputs_run_resolved.
  - exists n. rewrite run_resolved_unfold.
    destruct (for_loop (run_item error_func fns) (items src)) as [tl [e|]];
      [exact Hn|].
    unfold seq, trace in *. simpl fst in *. simpl snd.
    rewrite pulls_app, Hn. unfold safe_source. simpl.
    destruct (failure src); simpl; apply app_nil_r.
Qed.

Lemma no_fan_out_at_most_one_witness :
  Nat.le (List.length (outputs (run_resolved ignore_errors [up_one; ten_by]
                                  (Source (ints [0; 1; 5; -1]) None))))
         4%nat.
Proof.
  refine (proj1 (proj2 (@no_fan_out_at_most_one ignore_errors [up_one; ten_by]
                          (Source (ints [0; 1; 5; -1]) None) _ _))).
  - intros item e r H. injection H as <-. reflexivity.
  - repeat constructor.
    + intros item r H. destruct item as [|z|s|l]; try discriminate.
      injection H as <-. reflexivity.
    + intros item r H. destruct item as [|z|s|l]; try discriminate.
      destruct z; try discriminate; injection H as <-; reflexivity.
Defined.

(** ** Chains put together *)

Section Compose.

Variables whole first second : value -> run.

(** When the run of [whole] on an item is the run of [first] with every
    output passed on to [second], so it is for a loop over items. *)
Hypothesis item_compose :
  forall x, completes (whole x) ->
            completes (first x)
            /\ completes (for_loop second (outputs (first x)))
            /\ outputs (whole x) = outputs (for_loop second (outputs (first x))).

Lemma for_loop_compose (l : list value) :
  completes (for_loop whole l) ->
  completes (for_loop first l)
  /\ completes (for_loop second (outputs (for_loop first l)))
  /\ outputs (for_loop whole l)
     = outputs (for_loop second (outputs (for_loop first l))).
Proof.
  induction l as [|x l IH]; intros H.
  - repeat split.
  - rewrite for_loop_cons in H. apply seq_completes in H as [H Hl].
    apply seq_completes in H as [_ Hx].
    destruct (item_compose Hx) as [Hfx [Hsx Hox]].
    destruct (IH Hl) as [Hfl [Hsl Hol]].
    assert (Hfirst : completes (for_loop first (x :: l))).
    { rewrite for_loop_cons, !seq_completes. repeat split; assumption. }
    assert (Hout : outputs (for_loop first (x :: l))
                   = outputs (first x) ++ outputs (for_loop first l)).
    { rewrite !for_loop_outputs by assumption. reflexivity. }
    split; [exact Hfirst|]. rewrite Hout, for_loop_app. split.
    + apply seq_completes. now split.
    + rewrite outputs_seq by assumption. rewrite <- Hox, <- Hol.
      rewrite for_loop_cons, !outputs_seq;
        [reflexivity | reflexivity | apply seq_completes; now split].
Qed.

End Compose.

Lemma run_item_compose (error_func : handler) (pre post : list transform)
      (x : value) :
  completes (run_item error_func (pre ++ post) x) ->
  completes (run_item error_func pre x)
  /\ completes (for_loop (run_item error_func post)
                         (outputs (run_item error_func pre x)))
  /\ outputs (run_item error_func (pre ++ post) x)
     = outputs (for_loop (run_item error_func post)
                         (outputs (run_item error_func pre x))).
Proof.
  revert x. induction pre as [|function pre IH]; intros x H.
  - simpl app in *. rewrite run_item_nil.
    change (outputs (emit [EvYield x])) with [x].
    rewrite for_loop_cons. simpl for_loop. rewrite seq_nil_r.
    split; [reflexivity|]. split.
    + apply seq_completes. now split.
    + now rewrite outputs_seq.
  - rewrite <- app_comm_cons in *.
    rewrite (@run_item_cons error_func function (pre ++ post) x) in *.
    rewrite (@run_item_cons error_func function pre x).
    pose proof (call_stage_yields error_func function x) as Hy.
    destruct (call_stage error_func function x) as [t0 [y|e]]; simpl in Hy;
      [|discriminate].
    assert (Hemit : outputs (emit t0) = []) by exact Hy.
    destruct (classify y) as [| |elements] eqn:Hc.
    + rewrite Hemit. repeat split; reflexivity.
    + apply seq_completes in H as [_ H]. destruct (IH y H) as [H1 [H2 H3]].
      rewrite !outputs_seq, Hemit by reflexivity. simpl app.
      split; [apply seq_completes; now split|]. now split.
    + apply classify_many in Hc as [Hit _].
      rewrite !run_resolved_iter in * by assumption.
      apply seq_completes in H as [_ H].
      destruct (@for_loop_compose (run_item error_func (pre ++ post))
                  (run_item error_func pre) (run_item error_func post)
                  IH _ H) as [H1 [H2 H3]].
      rewrite !outputs_seq, Hemit by reflexivity. simpl app.
      split; [apply seq_completes; now split|]. now split.
Qed.

(** X8.  A chain is the composition of its parts: when no exception leaves
    the run of [pre ++ post], running the functions [pre] alone raises
    nothing either, and running the functions [post] over what [pre] yields
    gives the outputs of the whole chain. *)
Theorem chain_composition :
  forall (error_func : handler) (pre post : list transform)
         (S : list value) (fail : option exn),
    completes (run_resolved error_func (pre ++ post) (Source S fail)) ->
    let middle := outputs (run_resolved error_func pre (Source S fail)) in
    completes (run_resolved error_func post (Source middle None))
    /\ outputs (run_resolved error_func (pre ++ post) (Source S fail))
       = outputs (run_resolved error_func post (Source middle None)).
Proof.
  intros error_func pre post S fail H middle.
  rewrite run_resolved_unfold in H. apply seq_completes in H as [H _].
  simpl items in H.
  destruct (@for_loop_compose (run_item error_func (pre ++ post))
              (run_item error_func pre) (run_item error_func post)
              (fun x => @run_item_compose error_func pre post x) _ H)
    as [H1 [H2 H3]].
  unfold middle. rewrite (outputs_run_resolved error_func pre).
  rewrite (outputs_run_resolved error_func (pre ++ post)). simpl items.
  rewrite run_resolved_finite. now split.
Qed.

Lemma chain_composition_witness :
  outputs (run_resolved ignore_errors [up_one; twofer; ten_by; up_one]
             (Source (ints [0; -1; 4]) None))
  = outputs (run_resolved ignore_errors [ten_by; up_one]
               (Source (outputs (run_resolved ignore_errors [up_one; twofer]
                                   (Source (ints [0; -1; 4]) None))) None)).
Proof.
  refine (proj2 (@chain_composition ignore_errors [up_one; twofer]
                   [ten_by; up_one] (ints [0; -1; 4]) None _)).
  reflexivity.
Defined.

(** ** Arguments of [run_pipeline] *)

(** X9.  With a source that is not iterable, such as the default [None] of
    [item_generator], the failed iteration is reported to [error_func], once
    and with [None] as the item; no function is called and nothing is
    yielded, whatever [error_func] does, and an exception of [error_func]
    leaves the run. *)
Theorem non_iterable_source_reported :
  forall (error_func : handler) (fns : list transform) (v : value),
    isinstance_Iterable v = false ->
    exists e,
      failure (iter v) = Some e
      /\ trace (run_resolved error_func fns (iter v))
         = [EvPullFail e; EvError VNone e]
      /\ outputs (run_resolved error_func fns (iter v)) = []
      /\ calls (trace (run_resolved error_func fns (iter v))) = []
      /\ (forall e', error_func VNone e = Raise e' ->
            raised (run_resolved error_func fns (iter v)) = Some e').
Proof.
  intros error_func fns v Hv.
  exists (TypeError "object is not iterable").
  assert (Hiter : iter v = Source [] (Some (TypeError "object is not iterable"))).
  { destruct v; simpl in Hv; try discriminate; reflexivity. }
  rewrite Hiter. unfold run_resolved, safe_source, raised. simpl.
  rewrite seq_nil_l. simpl. repeat split.
  intros e' He'. now rewrite He'.
Qed.

Lemma non_iterable_source_reported_witness :
  exists e,
    failure (iter VNone) = Some e
    /\ trace (run_resolved ignore_errors [up_one] (iter VNone))
       = [EvPullFail e; EvError VNone e].
Proof.
  destruct (@non_iterable_source_reported ignore_errors [up_one] VNone eq_refl)
    as [e [H1 [H2 _]]].
  exists e. split; assumption.
Defined.

(** X10.  When [functions_to_run] is given, the registry and
    [function_groups_to_skip] have no effect on the run: nothing is built,
    and only the given functions are called. *)
Theorem given_functions_bypass_registry :
  forall (error_func : handler) (functions_list functions_list' : list entry)
         (src : source) (fns : list transform)
         (skip skip' : option (list string)),
    let r := run_pipeline error_func functions_list src (Some fns) skip in
    r = run_pipeline error_func functions_list' src (Some fns) skip'
    /\ builds (trace r) = []
    /\ (forall f x, In (f, x) (calls (trace r)) -> In f fns).
Proof.
  intros error_func functions_list functions_list' src fns skip skip' r.
  split; [reflexivity|].
  unfold r. rewrite run_pipeline_given.
  pose proof (run_resolved_events error_func fns src) as He. split.
  - exact (executor_builds He).
  - intros f x. exact (@executor_calls fns _ f x He).
Qed.

Lemma given_functions_bypass_registry_witness :
  run_pipeline ignore_errors grouped_registry (Source (ints [0; 1]) None)
    (Some [up_one]) (Some ["fan"])
  = run_pipeline ignore_errors [] (Source (ints [0; 1]) None)
      (Some [up_one]) None.
Proof.
  exact (proj1 (given_functions_bypass_registry ignore_errors
                  grouped_registry [] (Source (ints [0; 1]) None) [up_one]
                  (Some ["fan"]) None)).
Defined.

(** X11.  In a top-level run whose functions build, every selected function
    is built exactly once and before anything else happens, whatever the
    source holds and however often items fan out; the functions to run are
    as many as the selected ones. *)
Theorem builds_once_per_run :
  forall (error_func : handler) (functions_list : list entry) (src : source)
         (skip : option (list string)) (tb : list event) (fns : list transform),
    get_functions_to_run functions_list skip = (tb, Ok fns) ->
    let selected := select functions_list (groups_to_skip skip) in
    let r := run_pipeline error_func functions_list src None skip in
    trace r = map EvBuild selected ++ trace (run_resolved error_func fns src)
    /\ builds (trace r) = selected
    /\ builds (trace (run_resolved error_func fns src)) = []
    /\ List.length fns = List.length selected.
Proof.
  intros error_func functions_list src skip tb fns Hg selected r.
  pose proof Hg as Hb. unfold get_functions_to_run in Hb. fold selected in Hb.
  apply build_all_ok in Hb as [-> HF].
  pose proof (executor_builds (run_resolved_events error_func fns src)) as Hnone.
  assert (Ht : trace r = map EvBuild selected
                         ++ trace (run_resolved error_func fns src)).
  { unfold r, run_pipeline. rewrite Hg. now rewrite trace_seq. }
  split; [exact Ht|]. split; [|split; [exact Hnone|]].
  - rewrite Ht, builds_app, builds_builds, Hnone. apply app_nil_r.
  - symmetry. clear - HF. induction HF; simpl; congruence.
Qed.

Lemma builds_once_per_run_witness :
  builds (trace (run_pipeline ignore_errors grouped_registry
                   (Source (ints [0; 1; 3]) None) None None))
  = [builder "up_one" up_one; builder "twofer" twofer].
Proof.
  exact (proj1 (proj2 (@builds_once_per_run ignore_errors grouped_registry
                         (Source (ints [0; 1; 3]) None) None
                         [EvBuild (builder "up_one" up_one);
                          EvBuild (builder "twofer" twofer)]
                         [up_one; twofer] eq_refl))).
Defined.

Lemma kept_ext (skip skip' : list string) (functions_list : list entry) :
  (forall en, In en functions_list ->
              (In (entry_group en) skip <-> In (entry_group en) skip')) ->
  kept skip functions_list = kept skip' functions_list.
Proof.
  intros H. unfold kept. apply filter_ext_in. intros en Hin.
  specialize (H en Hin).
  destruct (not_in (entry_group en) skip) eqn:H1,
           (not_in (entry_group en) skip') eqn:H2; try reflexivity.
  - apply not_in_spec in H1. exfalso. apply H1, H.
    destruct (in_dec string_dec (entry_group en) skip') as [Hi|Hi];
      [exact Hi|]. apply not_in_spec in Hi. congruence.
  - apply not_in_spec in H2. exfalso. apply H2, H.
    destruct (in_dec string_dec (entry_group en) skip) as [Hi|Hi];
      [exact Hi|]. apply not_in_spec in Hi. congruence.
Qed.

(** X12.  [function_groups_to_skip] is used as a set of groups: two
    collections that hold the same groups among those of the registered
    functions give the same run, so the order of the groups, repetitions and
    groups under which nothing is registered do not matter. *)
Theorem skip_groups_as_set :
  forall (error_func : handler) (functions_list : list entry) (src : source)
         (skip skip' : list string),
    (forall en, In en functions_list ->
                (In (entry_group en) skip <-> In (entry_group en) skip')) ->
    run_pipeline error_func functions_list src None (Some skip)
    = run_pipeline error_func functions_list src None (Some skip').
Proof.
  intros error_func functions_list src skip skip' H.
  unfold run_pipeline, get_functions_to_run, groups_to_skip, select.
  now rewrite (kept_ext _ _ _ H).
Qed.

Lemma skip_groups_as_set_witness :
  run_pipeline ignore_errors grouped_registry (Source (ints [0; 1; 3]) None)
    None (Some ["fan"; "unused"; "fan"])
  = run_pipeline ignore_errors grouped_registry (Source (ints [0; 1; 3]) None)
      None (Some ["fan"]).
Proof.
  refine (@skip_groups_as_set ignore_errors grouped_registry
            (Source (ints [0; 1; 3]) None) ["fan"; "unused"; "fan"] ["fan"] _).
  intros en [<-|[<-|[]]]; simpl; intuition discriminate.
Defined.

(** ** [namedtuple_optional] *)

Lemma dict_get_set (d : dict) (k k' : string) (v : value) :
  dict_get (dict_set d k v) k'
  = if String.eqb k k' then Some v else dict_get d k'.
Proof.
  induction d as [|[k0 w] d IH]; simpl.
  - reflexivity.
  - destruct (String.eqb k0 k) eqn:H0; simpl.
    + apply String.eqb_eq in H0. subst k0.
      now destruct (String.eqb k k').
    + rewrite IH. destruct (String.eqb k0 k') eqn:H1; [|reflexivity].
      apply String.eqb_eq in H1. subst k0.
      rewrite String.eqb_sym in H0. now rewrite H0.
Qed.

Lemma dict_has_keys (d : dict) (k : string) :
  dict_has d k = true <-> In k (dict_keys d).
Proof.
  unfold dict_has. induction d as [|[k0 w] d IH]; simpl.
  - split; [discriminate | contradiction].
  - destruct (String.eqb k0 k) eqn:H0.
    + apply String.eqb_eq in H0. split; auto.
    + apply String.eqb_neq in H0. rewrite IH. split; [now right|].
      intros [H|H]; [contradiction | assumption].
Qed.

Lemma dict_keys_set (d : dict) (k : string) (v : value) :
  dict_has d k = true -> dict_keys (dict_set d k v) = dict_keys d.
Proof.
  unfold dict_has. induction d as [|[k0 w] d IH]; simpl; [discriminate|].
  destruct (String.eqb k0 k); simpl; [reflexivity|].
  intros H. now rewrite IH.
Qed.

Lemma dict_keys_update (d args : dict) :
  (forall kv, In kv args -> dict_has d (fst kv) = true) ->
  dict_keys (dict_update d args) = dict_keys d.
Proof.
  unfold dict_update. revert d. induction args as [|[k v] args IH]; intros d H.
  - reflexivity.
  - simpl. assert (Hk : dict_has d k = true) by (apply (H (k, v)); now left).
    rewrite IH.
    + now apply dict_keys_set.
    + intros kv Hin. apply dict_has_keys. rewrite dict_keys_set by assumption.
      apply dict_has_keys, H. now right.
Qed.

Lemma dict_get_app (d1 d2 : dict) (k : string) :
  dict_get (d1 ++ d2) k
  = match dict_get d1 k with Some v => Some v | None => dict_get d2 k end.
Proof.
  induction d1 as [|[k0 w] d1 IH]; simpl; [reflexivity|].
  now destruct (String.eqb k0 k).
Qed.

(** After [fields.update(args)] a key holds the value given last for it, or
    else what it held before. *)
Lemma dict_get_update (d args : dict) (k : string) :
  dict_get (dict_update d args) k
  = match last_given args k with Some v => Some v | None => dict_get d k end.
Proof.
  unfold dict_update, last_given. revert d.
  induction args as [|[k0 v] args IH]; intros d; simpl; [reflexivity|].
  rewrite IH, dict_get_app, dict_get_set. simpl.
  destruct (dict_get (rev args) k); [reflexivity|].
  now destruct (String.eqb k0 k).
Qed.

Lemma field_at_map (g : string -> value) (names : list string) (k : string) :
  field_at names (map g names) k
  = if existsb (String.eqb k) names then Some (g k) else None.
Proof.
  induction names as [|n names IH]; simpl; [reflexivity|].
  rewrite (String.eqb_sym k n). destruct (String.eqb n k) eqn:Hn; simpl.
  - apply String.eqb_eq in Hn. now subst.
  - exact IH.
Qed.

Lemma existsb_eqb_keys (d : dict) (k : string) :
  existsb (String.eqb k) (dict_keys d) = dict_has d k.
Proof.
  unfold dict_has. induction d as [|[k0 w] d IH]; simpl; [reflexivity|].
  rewrite (String.eqb_sym k k0). now destruct (String.eqb k0 k).
Qed.

(** X13.  For a class that [namedtuple_optional] has made: an argument
    named [cls] makes the call raise the [TypeError] of the binding, whatever
    the schema; otherwise an argument whose name is not a key of the schema
    makes the constructor raise [KeyError] with that name, the first such
    argument in the iteration order of the arguments deciding, and no
    instance is made. *)
Theorem unknown_argument_raises_KeyError :
  forall (is_name : string -> bool) (schema : dict) (name : string)
         (new : dict -> construction),
    namedtuple_optional is_name schema name = Some new ->
    (forall args, dict_has args "cls" = true -> new args = BindError)
    /\ (forall (before after : dict) (arg : string) (v : value),
          dict_has (before ++ (arg, v) :: after) "cls" = false ->
          (forall kv, In kv before -> dict_has schema (fst kv) = true) ->
          dict_has schema arg = false ->
          new (before ++ (arg, v) :: after) = KeyError arg).
Proof.
  intros is_name schema name new Hclass.
  unfold namedtuple_optional in Hclass.
  destruct (namedtuple_accepts is_name name (dict_keys schema)); [|discriminate].
  injection Hclass as <-. split.
  - intros args Hcls. unfold generated_class. now rewrite Hcls.
  - intros before after arg v Hcls Hbefore Harg.
    unfold generated_class. rewrite Hcls.
    assert (Hfind : find (fun kv => negb (dict_has schema (fst kv)))
                         (before ++ (arg, v) :: after) = Some (arg, v)).
    { clear Hcls. induction before as [|kv before IH]; simpl.
      - now rewrite Harg.
      - rewrite (Hbefore kv) by now left. simpl. apply IH.
        intros kv' Hin. apply Hbefore. now right. }
    now rewrite Hfind.
Qed.

Lemma unknown_argument_raises_KeyError_witness :
  generated_class optional_schema "optional_schema"
    [("key", VInt 1); ("other", VInt 2); ("more", VInt 3)]
  = KeyError "other"
  /\ generated_class optional_schema "optional_schema" [("cls", VInt 1)]
     = BindError.
Proof.
  pose proof (@unknown_argument_raises_KeyError
                (fun n => negb (String.eqb n EmptyString))
                optional_schema "optional_schema"
                (generated_class optional_schema "optional_schema") eq_refl)
    as [Hcls Hkey].
  split.
  - refine (Hkey [("key", VInt 1)] [("more", VInt 3)] "other" (VInt 2) _ _ _).
    + reflexivity.
    + intros kv [<-|[]]. reflexivity.
    + reflexivity.
  - apply Hcls. reflexivity.
Defined.

(** X14.  For a class that [namedtuple_optional] has made, when no argument
    is named [cls] and every argument names a key of the schema, the
    constructor makes an instance and raises nothing: its fields are the keys
    of the schema in their order, and a field holds the value of the
    argument given for it and the default of the schema when none was
    given. *)
Theorem known_arguments_fill_defaults :
  forall (is_name : string -> bool) (schema : dict) (name : string)
         (new : dict -> construction) (args : dict),
    namedtuple_optional is_name schema name = Some new ->
    dict_has args "cls" = false ->
    (forall kv, In kv args -> dict_has schema (fst kv) = true) ->
    exists t,
      new args = Built t
      /\ nt_name t = name
      /\ nt_fields t = dict_keys schema
      /\ (forall k, dict_has schema k = true ->
            field_value t k = match last_given args k with
                              | Some v => Some v
                              | None => dict_get schema k
                              end).
Proof.
  intros is_name schema name new args Hclass Hcls Hargs.
  unfold namedtuple_optional in Hclass.
  destruct (namedtuple_accepts is_name name (dict_keys schema)); [|discriminate].
  injection Hclass as <-. unfold generated_class. rewrite Hcls.
  assert (Hfind : find (fun kv => negb (dict_has schema (fst kv))) args = None).
  { clear - Hargs. induction args as [|kv args IH]; [reflexivity|].
    simpl. rewrite (Hargs kv) by now left. simpl. apply IH.
    intros kv' Hin. apply Hargs. now right. }
  rewrite Hfind. unfold namedtuple_new.
  pose proof (dict_keys_update schema args Hargs) as Hkeys.
  assert (Hall : forallb (dict_has (dict_update schema args)) (dict_keys schema)
                 = true).
  { apply forallb_forall. intros k Hk. apply dict_has_keys. rewrite Hkeys.
    exact Hk. }
  assert (Hno : forallb (fun k => existsb (String.eqb k) (dict_keys schema))
                        (dict_keys (dict_update schema args)) = true).
  { rewrite Hkeys. apply forallb_forall. intros k Hk.
    rewrite existsb_eqb_keys. now apply dict_has_keys. }
  rewrite Hall, Hno. simpl andb. cbv iota.
  eexists. split; [reflexivity|]. split; [reflexivity|]. split; [reflexivity|].
  unfold field_value. simpl nt_fields. simpl nt_values.
  intros k Hk. rewrite field_at_map, existsb_eqb_keys, Hk.
  rewrite dict_get_update. destruct (last_given args k); [reflexivity|].
  unfold dict_has in Hk. now destruct (dict_get schema k).
Qed.

Lemma known_arguments_fill_defaults_witness :
  exists t,
    generated_class optional_schema "optional_schema" [("key", VInt 1)]
    = Built t
    /\ field_value t "key" = Some (VInt 1)
    /\ field_value t "key2" = Some (VStr EmptyString).
Proof.
  destruct (@known_arguments_fill_defaults
              (fun n => negb (String.eqb n EmptyString))
              optional_schema "optional_schema"
              (generated_class optional_schema "optional_schema")
              [("key", VInt 1)] eq_refl eq_refl) as [t [H1 [_ [_ H2]]]].
  - intros kv [<-|[]]. reflexivity.
  - exists t. split; [exact H1|]. split.
    + exact (H2 "key" eq_refl).
    + exact (H2 "key2" eq_refl).
Defined.

(** ** [commandline] *)

Section CommandlineFacts.

Variable R : Type.

Lemma commands_dict_last (commands : list (string * command R))
      (name : string) (func : command R) :
  commands_dict (commands ++ [(name, func)]) name = Some func.
Proof.
  induction commands as [|[n f] commands IH]; simpl.
  - now rewrite String.eqb_refl.
  - now rewrite IH.
Qed.

Lemma commands_dict_none (commands : list (string * command R)) (key : string) :
  commands_dict commands key = None <-> ~ In key (map fst commands).
Proof.
  induction commands as [|[n f] commands IH]; simpl.
  - tauto.
  - destruct (commands_dict commands key) as [later|].
    + split; [discriminate|]. intros H. exfalso.
      assert (Hn : ~ In key (map fst commands)) by tauto.
      apply IH in Hn. discriminate.
    + destruct (String.eqb n key) eqn:Hn.
      * apply String.eqb_eq in Hn. split; [discriminate | tauto].
      * apply String.eqb_neq in Hn. split; [|reflexivity].
        intros _ [H|H]; [contradiction|]. now apply IH in H.
Qed.

Lemma commands_dict_some (commands : list (string * command R)) (key : string)
      (func : command R) :
  commands_dict commands key = Some func -> In (key, func) commands.
Proof.
  induction commands as [|[n f] commands IH]; simpl; [discriminate|].
  destruct (commands_dict commands key) as [later|].
  - intros H. injection H as <-. right. now apply IH.
  - destruct (String.eqb n key) eqn:Hn; [|discriminate].
    apply String.eqb_eq in Hn. intros H. injection H as <-. subst. now left.
Qed.

End CommandlineFacts.

(** X15.  A command that has just been registered is the one the command
    line runs under its name, with the arguments after the name, whatever
    was registered under that name before; nothing is printed, the
    annotator hands the function back, and the name is the function's own
    when none is given. *)
Theorem registered_command_is_dispatched :
  forall (R : Type) (strip : string -> string)
         (set_iteration : list (string * command R) -> list (string * command R))
         (commands : list (string * command R))
         (command_line_help : option string)
         (func : command R) (name : option string)
         (prog : string) (args : list string),
    let registered := fst (command_annotator func name commands) in
    let given := match name with None => command_name func | Some n => n end in
    cli strip set_iteration registered command_line_help (prog :: given :: args)
    = ([Invoke func args],
       match command_call func args with Ok _ => None | Raise e => Some e end)
    /\ snd (command_annotator func name commands) = func
    /\ registered = commands ++ [(given, func)].
Proof.
  intros R strip set_iteration commands command_line_help func name prog args
         registered given.
  assert (Hreg : registered = commands ++ [(given, func)]) by reflexivity.
  split; [|split; [reflexivity | exact Hreg]].
  unfold cli, call. rewrite Hreg, commands_dict_last. reflexivity.
Qed.

(** X16.  Without a command ([sys.argv] has at most one element) the help
    text, when there is one that is not empty, is printed stripped, and then
    the command options; with a name that is not registered only the command
    options are printed, not the help text; in both cases no command is
    called.  With a registered name one of the functions registered under it
    is called and nothing is printed. *)
Theorem command_line_without_command :
  forall (R : Type) (strip : string -> string)
         (set_iteration : list (string * command R) -> list (string * command R))
         (commands : list (string * command R))
         (command_line_help : option string),
    let options :=
      Print R ("Command options: "
               ++ get_command_names set_iteration commands)%string in
    (forall argv, (List.length argv <= 1)%nat ->
        cli strip set_iteration commands command_line_help argv
        = ((if truthy command_line_help
            then [Print R (strip (help_text command_line_help))] else [])
             ++ [options], None))
    /\ (forall prog name args, ~ In name (map fst commands) ->
          cli strip set_iteration commands command_line_help (prog :: name :: args)
          = ([options], None))
    /\ (forall prog name args, In name (map fst commands) ->
          exists func,
            In (name, func) commands
            /\ fst (cli strip set_iteration commands command_line_help
                      (prog :: name :: args))
               = [Invoke func args]).
Proof.
  intros R strip set_iteration commands command_line_help options.
  split; [|split].
  - intros [|a [|b argv]] Hlen; simpl in Hlen; try lia; try reflexivity.
  - intros prog name args Hn.
    apply (proj2 (@commands_dict_none R commands name)) in Hn.
    unfold cli, call. now rewrite Hn.
  - intros prog name args Hin. unfold cli, call.
    destruct (commands_dict commands name) as [func|] eqn:Hd.
    + exists func. split; [now apply commands_dict_some | reflexivity].
    + apply (proj1 (@commands_dict_none R commands name)) in Hd. contradiction.
Qed.

(** X17.  After [commandline_pipeline_connector] the command [run] calls the
    function that runs the pipeline on the item source, in place of any
    command registered as [run] before; as that function takes no argument,
    any further command-line argument makes the call raise. *)
Theorem connector_registers_run :
  forall (R S : Type) (strip : string -> string)
         (set_iteration : list (string * command R) -> list (string * command R))
         (pipeline_run_function : S -> R) (item_source : S)
         (commands : list (string * command R))
         (command_line_help : option string) (prog : string),
    let connected :=
      commandline_pipeline_connector pipeline_run_function item_source commands in
    let runner := run_lambda pipeline_run_function item_source in
    cli strip set_iteration connected command_line_help [prog; "run"]
    = ([Invoke runner []], None)
    /\ command_call runner [] = Ok (pipeline_run_function item_source)
    /\ (forall a args,
          exists e,
            cli strip set_iteration connected command_line_help
                (prog :: "run" :: a :: args)
            = ([Invoke runner (a :: args)], Some e)).
Proof.
  intros R S strip set_iteration pipeline_run_function item_source commands
         command_line_help prog connected runner.
  assert (Hd : commands_dict connected "run" = Some runner).
  { unfold connected, commandline_pipeline_connector, command_annotator.
    simpl fst. apply commands_dict_last. }
  split; [|split].
  - unfold cli, call. now rewrite Hd.
  - reflexivity.
  - intros a args. eexists. unfold cli, call. rewrite Hd. reflexivity.
Qed.

Lemma registered_command_is_dispatched_witness :
  cli (fun s => s) (fun l => l)
    (fst (command_annotator
            (Command "go" (fun _ : list string => Ok tt)) None
            [("go", Command "old" (fun _ => Raise (UserError "old")))]))
    (Some "usage") ["prog"; "go"; "fast"]
  = ([Invoke (Command "go" (fun _ : list string => Ok tt)) ["fast"]], None).
Proof.
  exact (proj1 (registered_command_is_dispatched (fun s => s) (fun l => l)
                  [("go", Command "old" (fun _ => Raise (UserError "old")))]
                  (Some "usage")
                  (Command "go" (fun _ : list string => Ok tt)) None
                  "prog" ["fast"])).
Defined.

Lemma command_line_without_command_witness :
  cli (fun s => s) (fun l => l)
    [("go", Command "go" (fun _ : list string => Ok tt))]
    (Some "usage") ["prog"; "stop"]
  = ([Print unit "Command options: go"], None).
Proof.
  refine (proj1 (proj2 (command_line_without_command (fun s => s) (fun l => l)
                          [("go", Command "go" (fun _ : list string => Ok tt))]
                          (Some "usage"))) "prog" "stop" [] _).
  intros [H|[]]. discriminate.
Defined.

Lemma connector_registers_run_witness :
  cli (fun s => s) (fun l => l)
    (commandline_pipeline_connector
       (fun src => run_pipeline ignore_errors grouped_registry src None None)
       (Source (ints [0; 1; 3]) None)
       [("run", Command "run" (fun _ => Raise (UserError "old")))])
    None ["prog"; "run"]
  = ([Invoke (run_lambda
                (fun src => run_pipeline ignore_errors grouped_registry src
                                         None None)
                (Source (ints [0; 1; 3]) None)) []],
     None).
Proof.
  exact (proj1 (connector_registers_run (fun s => s) (fun l => l)
                  (fun src => run_pipeline ignore_errors grouped_registry src
                                           None None)
                  (Source (ints [0; 1; 3]) None)
                  [("run", Command "run" (fun _ => Raise (UserError "old")))]
                  None "prog")).
Defined.
